(** * MovieAgenticAI: query parsing, ingestion and agent tools

  A shallow embedding of [services/utils.py], [services/ingest.py] and
  [services/agents.py], followed by the properties of the design
  document that concern them.

  Conventions of the embedding.
  - Python [str] values are [string]s, one character per code point.
    The regular-expression classes [\d], [\w], [\s], [str.lower] and
    [str.split] are given by their ASCII tables, which are Python's on
    ASCII text; a statement about what the parsers make of a text
    assumes that the text is ASCII ([ascii_text]).
  - Python floats are [pyfloat]: a rational or NaN. Their rendering by
    [str] and by the [.2f] format is a parameter ([FloatFormat]).
  - A tool that can raise returns a [result]. *)

From Stdlib Require Import ZArith QArith Ascii DecimalString.
From stdpp Require Import base list gmap strings.

(** ** Text primitives *)

Module Text.

Definition nl : string := String (ascii_of_nat 10) EmptyString.

Definition code (c : ascii) : nat := nat_of_ascii c.

Definition in_range (lo hi : nat) (c : ascii) : bool :=
  (lo <=? code c)%nat && (code c <=? hi)%nat.

(** [\d], [[a-z]], [[A-Z]], [\w] and [\s] on ASCII text; on other
    characters Python's classes are larger ([\w] has the letters of
    every script, [\d] its digits, [\s] its spaces). *)
Definition is_digit (c : ascii) : bool := in_range 48 57 c.
Definition is_lower (c : ascii) : bool := in_range 97 122 c.
Definition is_upper (c : ascii) : bool := in_range 65 90 c.
Definition is_word (c : ascii) : bool :=
  is_digit c || is_lower c || is_upper c || (code c =? 95)%nat.
Definition is_space (c : ascii) : bool :=
  in_range 9 13 c || in_range 28 32 c.

(** [str.lower] *)
Definition lower_char (c : ascii) : ascii :=
  if is_upper c then ascii_of_nat (code c + 32) else c.

Fixpoint lower (s : string) : string :=
  match s with
  | EmptyString => EmptyString
  | String c r => String (lower_char c) (lower r)
  end.

Fixpoint strlen (s : string) : nat :=
  match s with
  | EmptyString => 0
  | String _ r => S (strlen r)
  end.

(** [s.startswith(p)] *)
Fixpoint starts_with (p s : string) : bool :=
  match p, s with
  | EmptyString, _ => true
  | String a p', String b s' => Ascii.eqb a b && starts_with p' s'
  | String _ _, EmptyString => false
  end.

(** the text after the prefix [p], when [s] starts with [p] *)
Fixpoint strip_prefix (p s : string) : option string :=
  match p, s with
  | EmptyString, _ => Some s
  | String a p', String b s' =>
      if Ascii.eqb a b then strip_prefix p' s' else None
  | String _ _, EmptyString => None
  end.

(** [p in s] *)
Fixpoint contains (p s : string) : bool :=
  starts_with p s ||
  match s with
  | EmptyString => false
  | String _ r => contains p r
  end.

(** [s.split()]: maximal runs of non-whitespace characters *)
Fixpoint split_ws_go (cur : string) (s : string) : list string :=
  match s with
  | EmptyString =>
      match cur with EmptyString => [] | _ => [String.rev cur] end
  | String c r =>
      if is_space c
      then match cur with
           | EmptyString => split_ws_go EmptyString r
           | _ => String.rev cur :: split_ws_go EmptyString r
           end
      else split_ws_go (String c cur) r
  end.
Definition split_ws (s : string) : list string := split_ws_go EmptyString s.

(** [s.split(sep)] for a non-empty separator: leftmost occurrences,
    empty pieces kept. [skip] counts the characters of a separator that
    was recognised and is still being passed over. *)
Fixpoint split_go (sep : string) (skip : nat) (cur : string) (s : string)
  : list string :=
  match s with
  | EmptyString => [String.rev cur]
  | String c r =>
      match skip with
      | S k => split_go sep k cur r
      | O =>
          if starts_with sep s
          then String.rev cur :: split_go sep (strlen sep - 1) EmptyString r
          else split_go sep O (String c cur) r
      end
  end.
Definition split (sep s : string) : list string :=
  split_go sep 0 EmptyString s.

(** [sep.join(parts)] *)
Fixpoint join (sep : string) (parts : list string) : string :=
  match parts with
  | [] => EmptyString
  | [p] => p
  | p :: ps => p +:+ sep +:+ join sep ps
  end.

(** [int(s)] on a string of decimal digits *)
Definition digit_val (c : ascii) : Z := Z.of_nat (code c - 48).
Fixpoint int_go (acc : Z) (s : string) : Z :=
  match s with
  | EmptyString => acc
  | String c r => int_go (10 * acc + digit_val c)%Z r
  end.
Definition int (s : string) : Z := int_go 0%Z s.

(** [str(n)] for an integer *)
Definition str_Z (z : Z) : string := NilZero.string_of_int (Z.to_int z).
Definition str_nat (n : nat) : string := str_Z (Z.of_nat n).

(** *** Regular-expression pieces

    A pattern is matched at a position given by the character before
    it ([prev], [None] at the start of the text) and the text from the
    position on. [re_search] tries the positions from left to right,
    as [re.search] does. *)

Definition peek (s : string) : option ascii :=
  match s with String c _ => Some c | EmptyString => None end.

Definition opt_word (o : option ascii) : bool :=
  match o with Some c => is_word c | None => false end.

(** [\b] *)
Definition word_boundary (prev : option ascii) (s : string) : bool :=
  xorb (opt_word prev) (opt_word (peek s)).

Fixpoint last_char (prev : option ascii) (s : string) : option ascii :=
  match s with
  | EmptyString => prev
  | String c r => last_char (Some c) r
  end.

(** exactly [n] characters of class [P]: the characters and the rest *)
Fixpoint take_class (P : ascii → bool) (n : nat) (s : string)
  : option (string * string) :=
  match n with
  | O => Some (EmptyString, s)
  | S n' =>
      match s with
      | String c r =>
          if P c
          then match take_class P n' r with
               | Some (d, rest) => Some (String c d, rest)
               | None => None
               end
          else None
      | EmptyString => None
      end
  end.

(** [X?] followed by [k], greedy: with [X] first, without it next *)
Definition opt_then (P : ascii → bool) (k : string → bool) (s : string)
  : bool :=
  match s with
  | String c r => if P c then k r || k s else k s
  | EmptyString => k s
  end.

Fixpoint first_some {A B : Type} (f : A → option B) (l : list A)
  : option B :=
  match l with
  | [] => None
  | x :: l' => match f x with Some y => Some y | None => first_some f l' end
  end.

Fixpoint search_from {A : Type} (at_pos : option ascii → string → option A)
    (prev : option ascii) (s : string) : option A :=
  match at_pos prev s with
  | Some x => Some x
  | None =>
      match s with
      | String c r => search_from at_pos (Some c) r
      | EmptyString => None
      end
  end.

Definition re_search {A : Type} (at_pos : option ascii → string → option A)
    (s : string) : option A :=
  search_from at_pos None s.

End Text.

(** ** services/utils.py *)

Module Utils.
Import Text.

(** [s\b] *)
Definition lit_s_boundary (s : string) : bool :=
  match s with
  | String c r => Ascii.eqb c "s" && word_boundary (Some c) r
  | EmptyString => false
  end.

(** [\s?\'?s\b] *)
Definition decade_tail (s : string) : bool :=
  opt_then is_space (opt_then (Ascii.eqb "'") lit_s_boundary) s.

(** [\b(\d{2,4})\s?\'?s\b] at one position; the result is group 1.
    The counted repetition is greedy: four digits, then three, then
    two. *)
Definition decade_at (prev : option ascii) (s : string) : option string :=
  if word_boundary prev s then
    first_some
      (λ n, match take_class is_digit n s with
            | Some (digits, rest) =>
                if decade_tail rest then Some digits else None
            | None => None
            end)
      [4; 3; 2]%nat
  else None.

(** [\b(19\d{2}|20\d{2})\b] at one position; the result is group 1. *)
Definition year_at (prev : option ascii) (s : string) : option string :=
  if word_boundary prev s then
    first_some
      (λ century,
         match strip_prefix century s with
         | Some r =>
             match take_class is_digit 2 r with
             | Some (dd, rest) =>
                 let y := century +:+ dd in
                 if word_boundary (last_char prev y) rest
                 then Some y else None
             | None => None
             end
         | None => None
         end)
      ["19"; "20"]
  else None.

Definition parse_year_range (query_lower : string) : option (Z * Z) :=
  match re_search decade_at query_lower with
  | Some digits =>
      let start_year :=
        if (strlen digits =? 2)%nat then int ("19" +:+ digits)
        else int digits in
      Some (start_year, (start_year + 9)%Z)
  | None =>
      match re_search year_at query_lower with
      | Some y =>
          let specific_year := int y in
          Some (specific_year, specific_year)
      | None => None
      end
  end.



Definition genres : list string :=
  ["action"; "adventure"; "animation"; "biography"; "comedy"; "crime";
   "documentary"; "drama"; "fantasy"; "family"; "history"; "horror";
   "musical"; "mystery"; "romance"; "sci-fi"; "reality-tv"].

(** Length of a longest common subsequence. *)
Fixpoint lcs (a b : string) : nat :=
  match a with
  | EmptyString => 0
  | String x a' =>
      (fix against (b : string) : nat :=
         match b with
         | EmptyString => 0
         | String y b' =>
             if Ascii.eqb x y then S (lcs a' b')
             else Nat.max (lcs a' b) (against b')
         end) b
  end.

(** [rapidfuzz.fuzz.ratio]: the normalised Indel similarity on the scale
    0 to 100. The Indel distance of two strings is the number of
    insertions and deletions that turn one into the other,
    [len a + len b - 2 * lcs a b]; it is normalised by [len a + len b].
    The lengths and the subsequence count characters, which are the
    code points that [fuzz.ratio] compares when the text is ASCII. *)
Definition indel_distance (a b : string) : nat :=
  strlen a + strlen b - 2 * lcs a b.

Definition fuzz_ratio (a b : string) : Q :=
  let maximum := (strlen a + strlen b)%nat in
  let norm_dist :=
    if (maximum =? 0)%nat then 0%Q
    else (inject_Z (Z.of_nat (indel_distance a b))
          / inject_Z (Z.of_nat maximum))%Q in
  ((1 - norm_dist) * 100)%Q.

(** [x > y] on rationals *)
Definition Qgtb (x y : Q) : bool := negb (Qle_bool x y).

(** [parse_genre], with the similarity measure as a parameter. *)
Definition parse_genre_with (ratio : string → string → Q)
    (query_lower : string) : option string :=
  (* Common alias *)
  if contains "scifi" query_lower then Some "sci-fi"
  else
    (* 1. Exact Match *)
    match first_some
            (λ genre,
               if contains (" " +:+ genre +:+ " ")
                           (" " +:+ query_lower +:+ " ")
               then Some genre else None)
            genres with
    | Some genre => Some genre
    | None =>
        (* 2. Fuzzy Match (Typo tolerance) *)
        first_some
          (λ word,
             first_some
               (λ genre,
                  if Qgtb (ratio genre word) 80 then Some genre else None)
               genres)
          (split_ws query_lower)
    end.

Definition parse_genre (query_lower : string) : option string :=
  parse_genre_with fuzz_ratio query_lower.

(** [re.sub(r'(?<=[a-z])(?=[A-Z])', ', ', str(text))] *)
Fixpoint clean_mashed_names (text : string) : string :=
  match text with
  | EmptyString => EmptyString
  | String c r =>
      String c
        (match r with
         | String d _ =>
             if is_lower c && is_upper d
             then ", " +:+ clean_mashed_names r
             else clean_mashed_names r
         | EmptyString => EmptyString
         end)
  end.

End Utils.

(** ** Python and pandas values *)

Module Py.
Import Text.

(** A float: a rational, or NaN. *)
Inductive pyfloat : Type :=
| NaN
| Fin (q : Q).

(** The library renderings of a finite float: [str(x)] and the format
    [f"{x:.2f}"]. *)
Class FloatFormat : Type := {
  str_float : Q → string;
  fmt_2f : Q → string
}.

Definition str_pyfloat `{FloatFormat} (x : pyfloat) : string :=
  match x with NaN => "nan" | Fin q => str_float q end.

Definition fmt_2f_pyfloat `{FloatFormat} (x : pyfloat) : string :=
  match x with NaN => "nan" | Fin q => fmt_2f q end.

(** [int(x)]: truncation toward zero; [None] stands for the [ValueError]
    raised on NaN. *)
Definition int_of_float (x : pyfloat) : option Z :=
  match x with
  | NaN => None
  | Fin q => Some (Z.quot (Qnum q) (Z.pos (Qden q)))
  end.

(** [x >= y] and [x <= y] against a finite bound; false on NaN. *)
Definition float_ge (x : pyfloat) (y : Q) : bool :=
  match x with NaN => false | Fin q => Qle_bool y q end.
Definition float_le (x : pyfloat) (y : Q) : bool :=
  match x with NaN => false | Fin q => Qle_bool q y end.

(** The values of a float column that are not NaN. *)
Definition dropna (xs : list pyfloat) : list Q :=
  omap (λ x, match x with Fin q => Some q | NaN => None end) xs.

(** A cell of an object column: a float, a string, or [None]. *)
Inductive cell : Type :=
| CFloat (x : pyfloat)
| CStr (s : string)
| CNone.

(** [pd.notna] *)
Definition notna (c : cell) : bool :=
  match c with
  | CFloat NaN | CNone => false
  | _ => true
  end.

Definition str_cell `{FloatFormat} (c : cell) : string :=
  match c with
  | CFloat x => str_pyfloat x
  | CStr s => s
  | CNone => "None"
  end.

(** [c != s] for a string [s] *)
Definition cell_ne_str (c : cell) (s : string) : bool :=
  match c with
  | CStr t => negb (String.eqb t s)
  | _ => true
  end.

(** A row of the cleaned table. *)
Record Movie : Type := {
  title : string;
  year : pyfloat;
  genre : string;
  director : string;
  overview : string;
  certificates : string;
  metascore : cell;
  rating : pyfloat;
  cast : string;
  poster : option string;
  duration : pyfloat;
  description : string
}.

(** A LangChain document: text and a metadata dictionary. *)
Record Document : Type := {
  page_content : string;
  metadata : gmap string string
}.

(** What a tool call produces: an answer, or an exception. *)
Inductive result : Type :=
| Ret (answer : string)
| Raise (exn : string).

End Py.

(** ** services/rag.py *)

Module Rag.
Import Text Py.

(** The FAISS handle, as the tools use it: nearest-neighbour search of a
    query text, [k] results at most, best first. *)
Record VectorStore : Type := {
  similarity_search : string → nat → list Document
}.

(** The files the services keep under [local_data], each with its
    content when it exists. *)
Record Disk : Type := {
  csv_file : option string;
  cache_file : option string;
  index_dir : option string
}.

(** A row as [pd.read_csv] yields it, columns renamed; a missing text
    cell is [None]. *)
Record RawRow : Type := {
  raw_title : string;
  raw_year : pyfloat;
  raw_genre : option string;
  raw_director : option string;
  raw_overview : option string;
  raw_certificates : option string;
  raw_metascore : cell;
  raw_rating : pyfloat;
  raw_cast : option string;
  raw_poster : option string;
  raw_duration : pyfloat
}.

(** The libraries and the installation the services run on. A function
    that can raise returns the message of the exception on the left. *)
Class Platform : Type := {
  DATA_PATH : string;
  CACHE_PATH : string;
  INDEX_PATH : string;
  (** [pd.read_csv(DATA_PATH, on_bad_lines='skip')] with the columns
      renamed, on the content of the file if there is one *)
  read_csv : option string → string + list RawRow;
  (** [df.to_pickle] and [pd.read_pickle] *)
  to_pickle : list Movie → string;
  read_pickle : string → string + list Movie;
  (** [RecursiveCharacterTextSplitter(250, 20).split_documents] *)
  split_documents : list Document → list Document;
  (** [FAISS.from_documents] with the MiniLM embeddings, and the bytes
      that [save_local] writes *)
  from_documents : list Document → string + VectorStore;
  save_local : VectorStore → string
}.

(** How a procedure ends. *)
Inductive outcome (A : Type) : Type :=
| Returned (x : A)
| Raised (exn : string).
Arguments Returned {A} x.
Arguments Raised {A} exn.

(** [create_vector_db]: the disk and the printed lines are threaded
    through. *)
Definition create_vector_db `{Platform} (documents : list Document)
    (d : Disk) (out : list string)
  : Disk * list string * outcome VectorStore :=
  let out :=
    out ++ ["   [RAG] Processing " +:+ str_nat (length documents)
            +:+ " documents..."] in
  (* 1. Chunking *)
  let chunks := split_documents documents in
  let out :=
    out ++ ["   [RAG] Created " +:+ str_nat (length chunks) +:+ " chunks."] in
  (* 2. Indexing *)
  let out := out ++ ["   [RAG] Building Vector Index..."] in
  match from_documents chunks with
  | inl e => (d, out, Raised e)
  | inr vector_store =>
      let d :=
        {| csv_file := csv_file d; cache_file := cache_file d;
           index_dir := Some (save_local vector_store) |} in
      (d, out ++ ["💾 [RAG] Index saved successfully."], Returned vector_store)
  end.

End Rag.

(** ** services/ingest.py *)

Module Ingest.
Import Text Py Rag.

Definition make_description `{FloatFormat} (row : Movie) : string :=
  let year :=
    match int_of_float (year row) with
    | Some y => str_Z y
    | None => "Unknown"
    end in
  let duration :=
    match int_of_float (duration row) with
    | Some m => str_Z m
    | None => "Unknown"
    end in
  let desc :=
    "Title: " +:+ title row +:+ nl +:+
    "Year: " +:+ year +:+ nl +:+
    "Genre: " +:+ genre row +:+ nl +:+
    "Rating: " +:+ str_pyfloat (rating row) +:+ "/10" +:+ nl +:+
    "Director: " +:+ director row +:+ nl +:+
    "Cast: " +:+ cast row +:+ nl +:+
    "Duration: " +:+ duration +:+ " minutes" +:+ nl +:+
    "Certificate: " +:+ certificates row in
  if notna (metascore row) && cell_ne_str (metascore row) "Unknown"
  then desc +:+ nl +:+ "MetaScore: " +:+ str_cell (metascore row) +:+ "/100"
  else desc.

(** [Series.median]: the middle of the sorted values that are not NaN,
    the mean of the two middle ones when their number is even, NaN when
    there is none. *)
Fixpoint insert_sorted (x : Q) (l : list Q) : list Q :=
  match l with
  | [] => [x]
  | y :: l' => if Qle_bool x y then x :: l else y :: insert_sorted x l'
  end.

Definition sort_values (l : list Q) : list Q :=
  foldr insert_sorted [] l.

Definition median (xs : list pyfloat) : pyfloat :=
  let v := sort_values (dropna xs) in
  let n := length v in
  match v !! (n / 2)%nat with
  | None => NaN
  | Some hi =>
      if Nat.odd n then Fin hi
      else match v !! (n / 2 - 1)%nat with
           | Some lo => Fin ((lo + hi) / 2)%Q
           | None => NaN
           end
  end.

(** [fillna] on a float column and on a text column *)
Definition fillna (fill : pyfloat) (x : pyfloat) : pyfloat :=
  match x with NaN => fill | Fin _ => x end.

Definition fillna_text (x : option string) : string :=
  default "Unknown" x.

(** Step 2 of the processing: the imputed table, without descriptions. *)
Definition clean_data (raw : list RawRow) : list Movie :=
  let year_median := median (raw_year <$> raw) in
  let duration_median := median (raw_duration <$> raw) in
  (λ r,
     {| title := raw_title r;
        year := fillna year_median (raw_year r);
        genre := fillna_text (raw_genre r);
        director := fillna_text (raw_director r);
        overview := fillna_text (raw_overview r);
        certificates := fillna_text (raw_certificates r);
        metascore := raw_metascore r;
        rating := raw_rating r;
        cast := fillna_text (raw_cast r);
        poster := raw_poster r;
        duration := fillna duration_median (raw_duration r);
        description := EmptyString |}) <$> raw.

(** Step 3: [df['description'] = df.apply(make_description, axis=1)] *)
Definition with_description `{FloatFormat} (row : Movie) : Movie :=
  {| title := title row; year := year row; genre := genre row;
     director := director row; overview := overview row;
     certificates := certificates row; metascore := metascore row;
     rating := rating row; cast := cast row; poster := poster row;
     duration := duration row; description := make_description row |}.

Definition to_document (row : Movie) : Document :=
  {| page_content := description row;
     metadata := {[ "title" := title row ]} |}.

(** [ingest_movies]: the disk after the run, the lines printed, and how
    the run ended. *)
Definition ingest_movies `{FloatFormat} `{Platform} (d : Disk)
  : Disk * list string * outcome () :=
  let out := ["--- Starting Data Ingestion ---"] in
  (* PHASE 1: DATA LOADING (The Cache Logic) *)
  let phase1 : Disk * list string * outcome (option (list Movie)) :=
    match cache_file d with
    | Some pickled =>
        let out :=
          out ++ ["✅ Found cached data at " +:+ CACHE_PATH;
                  "   Skipping CSV processing."] in
        match read_pickle pickled with
        | inr df => (d, out, Returned (Some df))
        | inl e => (d, out, Raised e)
        end
    | None =>
        let out := out ++ ["Reading raw CSV from " +:+ DATA_PATH +:+ "..."] in
        match read_csv (csv_file d) with
        | inr raw =>
            let df := clean_data raw in
            let out := out ++ ["Generating descriptions..."] in
            let df := with_description <$> df in
            let out :=
              out ++ ["💾 Saving cleaned dataframe to " +:+ CACHE_PATH] in
            let d :=
              {| csv_file := csv_file d;
                 cache_file := Some (to_pickle df);
                 index_dir := index_dir d |} in
            (d, out, Returned (Some df))
        | inl e =>
            (d, out ++ ["❌ Error during data processing: " +:+ e],
             Returned None)
        end
    end in
  match phase1 with
  | (d, out, Raised e) => (d, out, Raised e)
  | (d, out, Returned None) => (d, out, Returned ())
  | (d, out, Returned (Some df)) =>
      (* PHASE 2: HANDOFF TO RAG *)
      match index_dir d with
      | Some _ =>
          (d,
           out ++ ["✅ Vector Database already exists at '" +:+ INDEX_PATH
                   +:+ "'.";
                   "   Skipping vector creation."],
           Returned ())
      | None =>
          let out := out ++ ["⚡ Converting rows to LangChain Documents..."] in
          let documents := to_document <$> df in
          let out :=
            out ++ ["⚡ Sending " +:+ str_nat (length documents)
                    +:+ " documents to RAG service for chunking & indexing..."]
          in
          match create_vector_db documents d out with
          | (d, out, Returned _) =>
              (d, out ++ ["✅ Success! Ingestion Complete."], Returned ())
          | (d, out, Raised e) => (d, out, Raised e)
          end
      end
  end.

End Ingest.

(** ** services/agents.py *)

Module Agents.
Import Text Utils Py Rag.

(** A random generator: the values it yields, and how many were drawn. *)
Record Rng : Type := {
  stream : nat → nat;
  cursor : nat
}.

Definition draw (g : Rng) : nat * Rng :=
  (stream g (cursor g), {| stream := stream g; cursor := S (cursor g) |}).

(** The state of the process: the module globals [df] and [vectorstore],
    NumPy's global generator (behind [DataFrame.sample]) and the one of
    the [random] module. *)
Record World : Type := {
  df : option (list Movie);
  vectorstore : option VectorStore;
  np_random : Rng;
  py_random : Rng
}.

(** [doc.metadata.get('title', 'Unknown')] *)
Definition doc_title (doc : Document) : string :=
  default "Unknown" (metadata doc !! "title").

(** [Year: (\d{4})] at one position; the result is group 1. *)
Definition year_marker_at (prev : option ascii) (s : string)
  : option string :=
  match strip_prefix "Year: " s with
  | Some r =>
      match take_class is_digit 4 r with
      | Some (digits, _) => Some digits
      | None => None
      end
  | None => None
  end.

(** The year check of the loop: [false] where the loop continues. *)
Definition year_check (year_range : option (Z * Z)) (doc : Document) : bool :=
  match year_range with
  | Some (lo, hi) =>
      match re_search year_marker_at (page_content doc) with
      | Some digits =>
          let yr := int digits in
          (lo <=? yr)%Z && (yr <=? hi)%Z
      | None => true
      end
  | None => true
  end.

(** The genre check of the loop: [false] where the loop continues. *)
Definition genre_check (genre_filter : option string) (doc : Document)
  : bool :=
  match genre_filter with
  | Some g => contains g (lower (page_content doc))
  | None => true
  end.

(** The filtering loop of [search_movies], from a state
    [(filtered, seen_titles)] over the results still to visit. *)
Fixpoint search_loop (year_range : option (Z * Z))
    (genre_filter : option string) (results : list Document)
    (filtered : list Document) (seen_titles : gset string)
  : list Document :=
  match results with
  | [] => filtered
  | doc :: rest =>
      let title := doc_title doc in
      if decide (title ∈ seen_titles)
      then search_loop year_range genre_filter rest filtered seen_titles
      else if negb (year_check year_range doc)
      then search_loop year_range genre_filter rest filtered seen_titles
      else if negb (genre_check genre_filter doc)
      then search_loop year_range genre_filter rest filtered seen_titles
      else
        let seen_titles := {[ title ]} ∪ seen_titles in
        let filtered := filtered ++ [doc] in
        if (5 <=? length filtered)%nat then filtered
        else search_loop year_range genre_filter rest filtered seen_titles
  end.

(** [' | '.join([line.split(': ')[1] for line in lines if ': ' in line])]
    over the first [n] lines of the text *)
Definition info_line (n : nat) (doc : Document) : string :=
  let lines := take n (split nl (page_content doc)) in
  join " | "
    ((λ line, default EmptyString (split ": " line !! 1%nat))
       <$> List.filter (contains ": ") lines).

(** The numbering loop of [search_movies], from index [i]. *)
Fixpoint number_lines (i : nat) (filtered : list Document) (output : string)
  : string :=
  match filtered with
  | [] => output
  | doc :: rest =>
      number_lines (S i) rest
        (output +:+ str_nat i +:+ ". " +:+ info_line 4 doc +:+ nl)
  end.

(** The list [filtered] that [search_movies] builds. *)
Definition search_hits (vs : VectorStore) (query : string) : list Document :=
  let query_lower := lower query in
  let year_range := parse_year_range query_lower in
  let genre_filter := parse_genre query_lower in
  (* 1. Semantic Search *)
  let results := similarity_search vs query 30 in
  (* 2. Strict Filtering *)
  search_loop year_range genre_filter results [] ∅.

Definition search_movies (query : string) (w : World) : result * World :=
  match vectorstore w with
  | None => (Ret "Error: Database is initializing, please try again.", w)
  | Some vs =>
      match search_hits vs query with
      | [] => (Ret "No movies found matching those specific criteria.", w)
      | filtered =>
          (Ret (number_lines 1 filtered
                  ("Here is what I found:" +:+ nl +:+ nl)), w)
      end
  end.

(** [str(doc.metadata.get('title'))] *)
Definition str_opt (o : option string) : string := default "None" o.

(** The loop of [recommend_similar_movies], from a state
    [(output, seen, count)]; [picked] lists the documents that got a
    line, in order (it is not a variable of the program). *)
Fixpoint recommend_loop (ref_title : option string) (similar : list Document)
    (output : string) (seen : gset (option string)) (count : nat)
    (picked : list Document) : string * list Document :=
  match similar with
  | [] => (output, picked)
  | doc :: rest =>
      let title := metadata doc !! "title" in
      if decide (title = ref_title ∨ title ∈ seen)
      then recommend_loop ref_title rest output seen count picked
      else
        let output := output +:+ "- " +:+ info_line 3 doc +:+ nl in
        let seen := {[ title ]} ∪ seen in
        let count := S count in
        let picked := picked ++ [doc] in
        if (5 <=? count)%nat then (output, picked)
        else recommend_loop ref_title rest output seen count picked
  end.

(** The answer of [recommend_similar_movies] on a loaded index, with the
    documents it recommends. *)
Definition recommend_on (vs : VectorStore) (movie_title : string)
  : string * list Document :=
  match similarity_search vs ("Title: " +:+ movie_title) 1 with
  | [] => ("I couldn't find '" +:+ movie_title +:+ "'.", [])
  | ref :: _ =>
      let ref_content := page_content ref in
      let similar := similarity_search vs ref_content 10 in
      let ref_title := metadata ref !! "title" in
      let output :=
        "Movies similar to '" +:+ str_opt ref_title +:+ "':" +:+ nl +:+ nl in
      recommend_loop ref_title similar output ∅ 0 []
  end.

Definition recommend_similar_movies (movie_title : string) (w : World)
  : result * World :=
  match vectorstore w with
  | None => (Ret "Error: Database not loaded.", w)
  | Some vs => (Ret (recommend_on vs movie_title).1, w)
  end.

(** [Series.mean]: NaN values are skipped; NaN when nothing is left. *)
Definition mean (xs : list pyfloat) : pyfloat :=
  match dropna xs with
  | [] => NaN
  | v => Fin (foldr Qplus 0 v / inject_Z (Z.of_nat (length v)))%Q
  end.

(** [DataFrame.nlargest(n, 'rating')]: the rows in descending order of
    rating, a row before the later rows of the same rating, rows
    without a rating last. *)
Fixpoint insert_desc (key : Q) (row : Movie) (l : list (Q * Movie))
  : list (Q * Movie) :=
  match l with
  | [] => [(key, row)]
  | (k, r) :: l' =>
      if Qle_bool k key then (key, row) :: l
      else (k, r) :: insert_desc key row l'
  end.

Definition nlargest (n : nat) (rows : list Movie) : list Movie :=
  let rated :=
    foldr (λ row acc,
             match rating row with
             | Fin q => insert_desc q row acc
             | NaN => acc
             end) [] rows in
  let unrated :=
    List.filter (λ row, match rating row with NaN => true | Fin _ => false end)
      rows in
  take n ((snd <$> rated) ++ unrated).

(** The filters of [get_movie_statistics] on the table. *)
Definition filter_genre (genre_filter : option string) (rows : list Movie)
  : list Movie :=
  match genre_filter with
  | Some g => List.filter (λ row, contains (lower g) (lower (genre row))) rows
  | None => rows
  end.

Definition filter_years (year_range : option (Z * Z)) (rows : list Movie)
  : list Movie :=
  match year_range with
  | Some (lo, hi) =>
      List.filter
        (λ row, float_ge (year row) (inject_Z lo)
                && float_le (year row) (inject_Z hi))
        rows
  | None => rows
  end.

(** The loop over the top rows; [int(row['year'])] raises on NaN. *)
Fixpoint top_lines `{FloatFormat} (top : list Movie) (res : string)
  : result :=
  match top with
  | [] => Ret res
  | row :: rest =>
      match int_of_float (year row) with
      | Some y =>
          top_lines rest
            (res +:+ "- " +:+ title row +:+ " (" +:+ str_Z y +:+ "): "
             +:+ str_pyfloat (rating row) +:+ nl)
      | None => Raise "ValueError: cannot convert float NaN to integer"
      end
  end.

(** The answer of [get_movie_statistics] on a loaded table. *)
Definition statistics_on `{FloatFormat} (table : list Movie) (query : string)
  : result :=
  let query_lower := lower query in
  let year_range := parse_year_range query_lower in
  let genre_filter := parse_genre query_lower in
  let subset := table in
  let subset := filter_genre genre_filter subset in
  let subset := filter_years year_range subset in
  if contains "average" query_lower then
    let avg := mean (rating <$> subset) in
    Ret ("Average rating: " +:+ fmt_2f_pyfloat avg +:+ "/10 (based on "
         +:+ str_nat (length subset) +:+ " movies)")
  else if existsb (λ x, contains x query_lower) ["highest"; "best"; "top"]
  then
    let top := nlargest 5 subset in
    top_lines top ("Highest rated movies:" +:+ nl)
  else
    Ret ("Found " +:+ str_nat (length subset)
         +:+ " movies matching your criteria.").

Definition get_movie_statistics `{FloatFormat} (query : string) (w : World)
  : result * World :=
  match df w with
  | None => (Ret "Error: Data cache not loaded.", w)
  | Some table => (statistics_on table query, w)
  end.

(** [df[(df['rating'] >= 7.0) & (df['year'] >= 2000)]] *)
Definition quiz_pool (table : list Movie) : list Movie :=
  List.filter (λ row, float_ge (rating row) 7 && float_ge (year row) 2000)
    table.

(** [pool.sample(1).iloc[0]] on a pool that is not empty: the row at a
    drawn position. *)
Definition sample_one (pool : list Movie) (g : Rng) : option Movie * Rng :=
  let '(n, g) := draw g in
  (pool !! (n mod length pool)%nat, g).

(** [random.choice([True, False])] *)
Definition choice_bool (g : Rng) : bool * Rng :=
  let '(n, g) := draw g in
  (default false ([true; false] !! (n mod 2)%nat), g).

(** [text.split(',')[0]] *)
Definition first_field (text : string) : string :=
  default EmptyString (split "," text !! 0%nat).

Definition director_question (movie : Movie) : string :=
  "ðŸŽ¬ **Director Challenge**" +:+ nl +:+ "â“ Who directed **'"
  +:+ title movie +:+ "'**?".

Definition actor_question (movie : Movie) : string :=
  "ðŸŽ¬ **Actor Challenge**" +:+ nl +:+ "â“ Who starred in **'"
  +:+ title movie +:+ "'**?".

Definition answer_key (answer : string) : string :=
  nl +:+ nl +:+ "||INTERNAL_ANSWER_KEY: " +:+ answer +:+ "||".

(** The two responses of the quiz for a sampled record. *)
Definition director_response (movie : Movie) : string :=
  let director := director movie in
  director_question movie +:+ answer_key director.

Definition actor_response (movie : Movie) : string :=
  let cast := first_field (clean_mashed_names (cast movie)) in
  actor_question movie +:+ answer_key cast.

Definition generate_movie_quiz (query : string) (w : World)
  : result * World :=
  match df w with
  | None => (Ret "Error: Data not loaded.", w)
  | Some table =>
      let pool := quiz_pool table in
      if (length pool <? 5)%nat then (Ret "Not enough data for a quiz.", w)
      else
        let '(sampled, np) := sample_one pool (np_random w) in
        let '(heads, py) := choice_bool (py_random w) in
        let w :=
          {| df := df w; vectorstore := vectorstore w;
             np_random := np; py_random := py |} in
        match sampled with
        | Some movie =>
            if heads then (Ret (director_response movie), w)
            else (Ret (actor_response movie), w)
        | None => (Raise "IndexError: single positional indexer is out-of-bounds", w)
        end
  end.

End Agents.

(** ** Vocabulary of the statements *)

Import Text Utils Py Rag Ingest Agents.

(** Every character of the text is in the class. *)
Fixpoint all_chars (P : ascii → bool) (s : string) : bool :=
  match s with
  | EmptyString => true
  | String c r => P c && all_chars P r
  end.

Definition no_digit (s : string) : bool :=
  all_chars (λ c, negb (is_digit c)) s.

(** The text does not end, or does not start, with a word character. *)
Definition not_word_end (before : string) : Prop :=
  opt_word (last_char None before) = false.
Definition not_word_start (after : string) : Prop :=
  opt_word (peek after) = false.

(** The text has a decade token: two to four digits, an optional
    whitespace character, an optional apostrophe and an [s], the whole
    between word boundaries. *)
Definition decade_token (s : string) : Prop :=
  ∃ before digits sp ap after,
    s = before +:+ digits +:+ sp +:+ ap +:+ "s" +:+ after
    ∧ (2 ≤ strlen digits ≤ 4)%nat
    ∧ all_chars is_digit digits = true
    ∧ (sp = EmptyString ∨ ∃ c, is_space c = true ∧ sp = String c EmptyString)
    ∧ (ap = EmptyString ∨ ap = "'")
    ∧ not_word_end before
    ∧ not_word_start after.

(** The text has a four-digit year of the twentieth or twenty-first
    century between word boundaries. *)
Definition year_token (s : string) : Prop :=
  ∃ before century dd after,
    s = before +:+ century +:+ dd +:+ after
    ∧ (century = "19" ∨ century = "20")
    ∧ strlen dd = 2%nat
    ∧ all_chars is_digit dd = true
    ∧ not_word_end before
    ∧ not_word_start after.

(** The genre stands in the text as a word between spaces (or the ends
    of the text). *)
Definition exact_word (genre query : string) : bool :=
  contains (" " +:+ genre +:+ " ") (" " +:+ query +:+ " ").

(** The claim's reading of the fuzzy step: the first genre of the
    vocabulary whose ratio with some token of the text exceeds 80. *)
Definition first_genre_above_80 (ratio : string → string → Q)
    (query : string) : option string :=
  first_some
    (λ genre,
       if existsb (λ word, Qgtb (ratio genre word) 80) (split_ws query)
       then Some genre else None)
    genres.

(** The text has a year marker: "Year: " followed by four digits. *)
Definition year_marker (s : string) : Prop :=
  ∃ before digits after,
    s = before +:+ "Year: " +:+ digits +:+ after
    ∧ strlen digits = 4%nat
    ∧ all_chars is_digit digits = true.

(** A document passes the two filters of [search_movies]. *)
Definition passes (year_range : option (Z * Z)) (genre_filter : option string)
    (doc : Document) : bool :=
  year_check year_range doc && genre_check genre_filter doc.

(** The documents of a list whose key was not seen before, first
    occurrence kept, in the order of the list. *)
Fixpoint dedup_by `{Countable K} (key : Document → K) (seen : gset K)
    (docs : list Document) : list Document :=
  match docs with
  | [] => []
  | doc :: rest =>
      if decide (key doc ∈ seen) then dedup_by key seen rest
      else doc :: dedup_by key ({[ key doc ]} ∪ seen) rest
  end.

(** [doc.metadata.get('title')] *)
Definition doc_title_opt (doc : Document) : option string :=
  metadata doc !! "title".

(** The lines that [recommend_similar_movies] writes for documents. *)
Definition recommend_lines (docs : list Document) : string :=
  foldr (λ doc acc, "- " +:+ info_line 3 doc +:+ nl +:+ acc) EmptyString docs.


(** ** Sample data *)

Module Sample.

Definition chunk (t content : string) : Document :=
  {| page_content := content; metadata := {[ "title" := t ]} |}.

Definition heat : Document :=
  chunk "Heat"
    ("Title: Heat" +:+ nl +:+ "Year: 1995" +:+ nl +:+
     "Genre: Action, Crime" +:+ nl +:+ "Rating: 8.3/10" +:+ nl +:+
     "Director: Michael Mann").

(** A later chunk of the same description: it carries no year marker. *)
Definition heat_cast : Document :=
  chunk "Heat"
    ("Cast: Al Pacino, Robert De Niro" +:+ nl +:+ "Duration: 170 minutes").

Definition alien : Document :=
  chunk "Alien"
    ("Title: Alien" +:+ nl +:+ "Year: 1979" +:+ nl +:+
     "Genre: Horror, Sci-Fi" +:+ nl +:+ "Rating: 8.5/10").

Definition ronin : Document :=
  chunk "Ronin"
    ("Cast: Robert De Niro, Jean Reno" +:+ nl +:+ "Duration: 122 minutes").

(** An index that answers every query with the same ranking. *)
Definition store : VectorStore :=
  {| similarity_search := λ _ k, take k [heat; heat_cast; alien; ronin; heat] |}.

Definition movie (t d c : string) (y r : Q) : Movie :=
  {| title := t; year := Fin y; genre := "Drama"; director := d;
     overview := "Unknown"; certificates := "PG-13"; metascore := CFloat NaN;
     rating := Fin r; cast := c; poster := None; duration := Fin 120;
     description := EmptyString |}.

Definition table : list Movie :=
  [ movie "Inception" "Christopher Nolan" "LeonardoDiCaprio, Elliot Page"
      2010 (88 # 10);
    movie "Parasite" "Bong Joon Ho" "Song Kang-ho, Lee Sun-kyun"
      2019 (85 # 10);
    movie "Whiplash" "Damien Chazelle" "Miles Teller, J.K. Simmons"
      2014 (85 # 10);
    movie "Up" "Pete Docter" "Edward Asner" 2009 (83 # 10);
    movie "Her" "Spike Jonze" "Joaquin Phoenix" 2013 (80 # 10);
    movie "Heat" "Michael Mann" "Al Pacino" 1995 (83 # 10) ].

Definition counter : Rng := {| stream := λ n, n; cursor := 0 |}.

(** A rendering of floats by numerator and denominator. *)
Definition fraction (q : Q) : string :=
  str_Z (Qnum q) +:+ "/" +:+ str_Z (Z.pos (Qden q)).

Definition format : FloatFormat :=
  {| str_float := fraction; fmt_2f := fraction |}.

(** An installation whose cache file always loads as [table], and
    whose index is written as one fixed text. *)
Definition platform : Platform :=
  {| DATA_PATH := "/app/local_data/movies.csv";
     CACHE_PATH := "/app/local_data/processed_movies.pkl";
     INDEX_PATH := "/app/local_data/faiss_index";
     read_csv := λ _, inl "FileNotFoundError";
     to_pickle := λ _, "pickle";
     read_pickle := λ _, inr table;
     split_documents := λ docs, docs;
     from_documents := λ _, inr store;
     save_local := λ _, "index" |}.

Definition disk : Disk :=
  {| csv_file := None; cache_file := Some "pickle";
     index_dir := Some "index" |}.

Definition world : World :=
  {| df := Some table; vectorstore := Some store;
     np_random := counter; py_random := counter |}.

End Sample.


(** The lines of a description, in their order, without the metascore. *)
Definition description_lines `{FloatFormat} (row : Movie) : list string :=
  [ "Title: " +:+ title row;
    "Year: " +:+ match int_of_float (year row) with
                 | Some y => str_Z y
                 | None => "Unknown"
                 end;
    "Genre: " +:+ genre row;
    "Rating: " +:+ str_pyfloat (rating row) +:+ "/10";
    "Director: " +:+ director row;
    "Cast: " +:+ cast row;
    "Duration: " +:+ match int_of_float (duration row) with
                     | Some m => str_Z m
                     | None => "Unknown"
                     end +:+ " minutes";
    "Certificate: " +:+ certificates row ].

(** The metascore of the row is present, and is not the text
    "Unknown". *)
Definition has_metascore (row : Movie) : Prop :=
  metascore row ≠ CNone ∧ metascore row ≠ CFloat NaN
  ∧ metascore row ≠ CStr "Unknown".

(** The subset of the table that [get_movie_statistics] works on. *)
Definition statistics_subset (table : list Movie) (query : string)
  : list Movie :=
  filter_years (parse_year_range (lower query))
    (filter_genre (parse_genre (lower query)) table).

(** The value that the next draw of a generator yields. *)
Definition next_draw (g : Rng) : nat := stream g (cursor g).

(** ** Loading the index and starting the agents *)

Module Startup.

(** [FAISS.load_local] on the content of the index directory, and the
    message of the exception it raises when the directory is missing. *)
Class Loader : Type := {
  load_local : string → string + VectorStore;
  missing_index_error : string
}.

(** [rag.get_vector_store]: the disk and the printed lines are threaded
    through. *)
Definition get_vector_store `{FloatFormat} `{Platform} `{Loader}
    (d : Disk) (out : list string)
  : Disk * list string * outcome VectorStore :=
  (* 1. Check if DB exists *)
  let healed : Disk * list string * outcome () :=
    match index_dir d with
    | None =>
        let out := out ++ ["⚠️ Vector Database not found. Initiating Auto-Ingestion..."] in
        match ingest_movies d with
        | (d, printed, Returned _) =>
            (d, out ++ printed ++ ["✅ Auto-Ingestion Complete. Loading Database..."], Returned ())
        | (d, printed, Raised e) => (d, out ++ printed, Raised e)
        end
    | Some _ => (d, out, Returned ())
    end in
  (* 2. Load and return DB *)
  match healed with
  | (d, out, Returned _) =>
      match index_dir d with
      | Some content =>
          match load_local content with
          | inr vector_store => (d, out, Returned vector_store)
          | inl e => (d, out, Raised e)
          end
      | None => (d, out, Raised missing_index_error)
      end
  | (d, out, Raised e) => (d, out, Raised e)
  end.

(** The module-level code of [agents.py]: the table is read from the
    cache if the cache exists, then the index is loaded. The generators
    are in the state the process gives them. *)
Definition agents_startup `{FloatFormat} `{Platform} `{Loader}
    (np py : Rng) (d : Disk) : Disk * list string * outcome World :=
  let loaded : outcome (option (list Movie)) :=
    match cache_file d with
    | Some pickled =>
        match read_pickle pickled with
        | inr table => Returned (Some table)
        | inl e => Raised e
        end
    | None => Returned None
    end in
  match loaded with
  | Raised e => (d, [], Raised e)
  | Returned table =>
      match get_vector_store d [] with
      | (d, out, Returned vector_store) =>
          (d, out,
           Returned {| df := table; vectorstore := Some vector_store;
                       np_random := np; py_random := py |})
      | (d, out, Raised e) => (d, out, Raised e)
      end
  end.

End Startup.

Import Startup.

(** A lowercase letter of the text is directly followed by an uppercase
    letter: a place where [clean_mashed_names] inserts a separator. *)
Fixpoint has_boundary (s : string) : bool :=
  match s with
  | EmptyString => false
  | String c r =>
      match r with
      | String d _ => is_lower c && is_upper d || has_boundary r
      | EmptyString => false
      end
  end.

(** Raw rows for the samples: one with its year, one without. *)
Module SampleRaw.

Definition raw (t : string) (y : pyfloat) (g : option string) : RawRow :=
  {| raw_title := t; raw_year := y; raw_genre := g;
     raw_director := None; raw_overview := None; raw_certificates := None;
     raw_metascore := CFloat NaN; raw_rating := Fin (80 # 10);
     raw_cast := Some "Cast"; raw_poster := None; raw_duration := NaN |}.

Definition rows : list RawRow :=
  [ raw "Heat" (Fin 1995) (Some "Action"); raw "Lost" NaN None;
    raw "Alien" (Fin 1979) (Some "Horror") ].

(** An installation on which the CSV is read as [rows], an index can be
    built, and whatever is pickled or saved loads again. *)
Definition platform : Platform :=
  {| DATA_PATH := "/app/local_data/movies.csv";
     CACHE_PATH := "/app/local_data/processed_movies.pkl";
     INDEX_PATH := "/app/local_data/faiss_index";
     read_csv := λ _, inr rows;
     to_pickle := λ _, "pickle";
     read_pickle := λ _, inr (@with_description Sample.format
                                <$> clean_data rows);
     split_documents := λ docs, docs;
     from_documents := λ _, inr Sample.store;
     save_local := λ _, "index" |}.

Definition loader : Loader :=
  {| load_local := λ _, inr Sample.store;
     missing_index_error := "RuntimeError: could not open index" |}.

(** A disk with the CSV only. *)
Definition fresh : Disk :=
  {| csv_file := Some "csv"; cache_file := None; index_dir := None |}.

End SampleRaw.

(** The text has no newline. *)
Definition one_line (s : string) : bool :=
  all_chars (λ c, negb (Ascii.eqb (ascii_of_nat 10) c)) s.

(** The fields that [info_line] shows for lines: of each line that
    contains ": ", the second piece of its split at ": ". *)
Definition shown_fields (lines : list string) : list string :=
  (λ line, default EmptyString (split ": " line !! 1%nat))
    <$> List.filter (contains ": ") lines.

(** The text is ASCII: every character has a code below 128. On such
    texts the tables of [Text] are those that Python's [re], [str.lower]
    and [str.split] use, and the characters are the code points that
    [fuzz.ratio] compares. *)
Definition ascii_text (s : string) : bool :=
  all_chars (λ c, (code c <? 128)%nat) s.

(** A decade token with the digits [digits] starts where [before] ends
    and [rest] begins. *)
Definition decade_token_at (before rest digits : string) : Prop :=
  ∃ sp ap after,
    rest = digits +:+ sp +:+ ap +:+ "s" +:+ after
    ∧ (2 ≤ strlen digits ≤ 4)%nat
    ∧ all_chars is_digit digits = true
    ∧ (sp = EmptyString ∨ ∃ c, is_space c = true ∧ sp = String c EmptyString)
    ∧ (ap = EmptyString ∨ ap = "'")
    ∧ not_word_end before
    ∧ not_word_start after.

(** No decade token of the text starts within its first [n]
    characters. *)
Definition no_decade_token_before (n : nat) (s : string) : Prop :=
  ∀ b1 b2 d, s = b1 +:+ b2 → (strlen b1 < n)%nat → ¬ decade_token_at b1 b2 d.

(** The first decade token of the text has the digits [digits]. *)
Definition first_decade_token (s digits : string) : Prop :=
  ∃ before rest,
    s = before +:+ rest
    ∧ decade_token_at before rest digits
    ∧ no_decade_token_before (strlen before) s.

(** A four-digit year [y] of the twentieth or twenty-first century
    starts where [before] ends and [rest] begins. *)
Definition year_token_at (before rest y : string) : Prop :=
  ∃ century dd after,
    y = century +:+ dd
    ∧ rest = y +:+ after
    ∧ (century = "19" ∨ century = "20")
    ∧ strlen dd = 2%nat
    ∧ all_chars is_digit dd = true
    ∧ not_word_end before
    ∧ not_word_start after.

Definition no_year_token_before (n : nat) (s : string) : Prop :=
  ∀ b1 b2 y, s = b1 +:+ b2 → (strlen b1 < n)%nat → ¬ year_token_at b1 b2 y.

(** The first four-digit year of the text is [y]. *)
Definition first_year_token (s y : string) : Prop :=
  ∃ before rest,
    s = before +:+ rest
    ∧ year_token_at before rest y
    ∧ no_year_token_before (strlen before) s.

(** The text starts with a year marker of the digits [digits]. *)
Definition year_marker_here (rest digits : string) : Prop :=
  ∃ after,
    rest = "Year: " +:+ digits +:+ after
    ∧ strlen digits = 4%nat
    ∧ all_chars is_digit digits = true.

(** The first year marker of the text has the digits [digits]: no
    marker starts further left. *)
Definition first_year_marker (s digits : string) : Prop :=
  ∃ before rest,
    s = before +:+ rest
    ∧ year_marker_here rest digits
    ∧ ∀ b1 b2 d, s = b1 +:+ b2 → (strlen b1 < strlen before)%nat →
        ¬ year_marker_here b2 d.

(** The pattern matches at none of the first [n] positions of the
    text. *)
Fixpoint none_before {A : Type} (at_pos : option ascii → string → option A)
    (prev : option ascii) (s : string) (n : nat) {struct n} : bool :=
  match n with
  | O => true
  | S n' =>
      match at_pos prev s with
      | Some _ => false
      | None =>
          match s with
          | String c r => none_before at_pos (Some c) r n'
          | EmptyString => true
          end
      end
  end.

(** ** The tools on the table, with the DataFrames as objects *)

Module Frames.

(** The DataFrame objects that are alive in the process, by address,
    and the module globals of [agents.py]: [df] refers to one of the
    objects (or is [None]), [vectorstore] is the handle of the index.
    The two random generators are part of the state. *)
Record Process : Type := {
  frames : gmap nat (list Movie);
  df : option nat;
  vectorstore : option VectorStore;
  np_random : Rng;
  py_random : Rng
}.

(** The rows of the object at an address. *)
Definition rows_of (l : nat) (p : Process) : list Movie :=
  default [] (frames p !! l).

(** A new DataFrame object with the given rows: it gets an address that
    is not in use. *)
Definition new_frame (rows : list Movie) (p : Process) : nat * Process :=
  let l := fresh (dom (frames p)) in
  (l, {| frames := <[l := rows]> (frames p); df := df p;
         vectorstore := vectorstore p;
         np_random := np_random p; py_random := py_random p |}).

(** [frame.copy()] *)
Definition copy (l : nat) (p : Process) : nat * Process :=
  new_frame (rows_of l p) p.

(** [frame[mask]], the mask computed row by row *)
Definition getitem (mask : Movie → bool) (l : nat) (p : Process)
  : nat * Process :=
  new_frame (List.filter mask (rows_of l p)) p.

(** [frame.nlargest(n, 'rating')] *)
Definition nlargest (n : nat) (l : nat) (p : Process) : nat * Process :=
  new_frame (Agents.nlargest n (rows_of l p)) p.

(** [frame[['title', 'rating', 'year']]]: the rows are kept. *)
Definition columns (l : nat) (p : Process) : nat * Process :=
  new_frame (rows_of l p) p.

(** [frame.sample(1)]: a new object with the row at a position drawn
    from NumPy's generator (no row when the position does not exist). *)
Definition sample (l : nat) (p : Process) : nat * Process :=
  let '(sampled, np) := sample_one (rows_of l p) (np_random p) in
  new_frame (option_list sampled)
    {| frames := frames p; df := df p; vectorstore := vectorstore p;
       np_random := np; py_random := py_random p |}.

(** [random.choice([True, False])] *)
Definition choice (p : Process) : bool * Process :=
  let '(heads, py) := choice_bool (py_random p) in
  (heads, {| frames := frames p; df := df p; vectorstore := vectorstore p;
             np_random := np_random p; py_random := py |}).

Definition get_movie_statistics `{FloatFormat} (query : string) (p : Process)
  : result * Process :=
  match df p with
  | None => (Ret "Error: Data cache not loaded.", p)
  | Some df =>
      let query_lower := lower query in
      let year_range := parse_year_range query_lower in
      let genre_filter := parse_genre query_lower in
      let '(subset, p) := copy df p in
      let '(subset, p) :=
        match genre_filter with
        | Some g =>
            getitem (λ row, contains (lower g) (lower (genre row))) subset p
        | None => (subset, p)
        end in
      let '(subset, p) :=
        match year_range with
        | Some (lo, hi) =>
            getitem (λ row, float_ge (year row) (inject_Z lo)
                            && float_le (year row) (inject_Z hi)) subset p
        | None => (subset, p)
        end in
      if contains "average" query_lower then
        let avg := mean (rating <$> rows_of subset p) in
        (Ret ("Average rating: " +:+ fmt_2f_pyfloat avg +:+ "/10 (based on "
              +:+ str_nat (length (rows_of subset p)) +:+ " movies)"), p)
      else if existsb (λ x, contains x query_lower) ["highest"; "best"; "top"]
      then
        let '(top, p) := nlargest 5 subset p in
        let '(top, p) := columns top p in
        (top_lines (rows_of top p) ("Highest rated movies:" +:+ nl), p)
      else
        (Ret ("Found " +:+ str_nat (length (rows_of subset p))
              +:+ " movies matching your criteria."), p)
  end.

Definition generate_movie_quiz (query : string) (p : Process)
  : result * Process :=
  match df p with
  | None => (Ret "Error: Data not loaded.", p)
  | Some df =>
      let '(pool, p) :=
        getitem (λ row, float_ge (rating row) 7 && float_ge (year row) 2000)
          df p in
      if (length (rows_of pool p) <? 5)%nat
      then (Ret "Not enough data for a quiz.", p)
      else
        let '(sampled, p) := sample pool p in
        match rows_of sampled p !! 0%nat with
        | Some movie =>
            let '(heads, p) := choice p in
            if heads then (Ret (director_response movie), p)
            else (Ret (actor_response movie), p)
        | None =>
            (Raise "IndexError: single positional indexer is out-of-bounds", p)
        end
  end.

(** Every DataFrame object of [p] is an object of [p'], with the same
    rows, and the two globals are the same. *)
Definition preserved (p p' : Process) : Prop :=
  (∀ l rows, frames p !! l = Some rows → frames p' !! l = Some rows)
  ∧ df p' = df p
  ∧ vectorstore p' = vectorstore p.

(** The process with its two generators in other states. *)
Definition seeded (np py : Rng) (p : Process) : Process :=
  {| frames := frames p; df := df p; vectorstore := vectorstore p;
     np_random := np; py_random := py |}.

End Frames.

(** A process whose table is the sample table, at some address. *)
Definition sample_process : Frames.Process :=
    {| Frames.frames := {[ 7%nat := Sample.table ]};
       Frames.df := Some 7%nat;
       Frames.vectorstore := Some Sample.store;
       Frames.np_random := Sample.counter;
       Frames.py_random := Sample.counter |}.

(** ** Strings *)

Lemma str_app_nil_l (t : string) : EmptyString +:+ t = t.
Proof. reflexivity. Qed.

Lemma str_app_cons (c : ascii) (s t : string) :
  String c s +:+ t = String c (s +:+ t).
Proof. reflexivity. Qed.

Lemma str_app_nil_r (s : string) : s +:+ EmptyString = s.
Proof. induction s as [|c s IH]; [done|]. by rewrite str_app_cons, IH. Qed.

Lemma str_app_assoc (s t u : string) : (s +:+ t) +:+ u = s +:+ t +:+ u.
Proof. induction s as [|c s IH]; [done|]. by rewrite !str_app_cons, IH. Qed.

Lemma strlen_app (s t : string) : strlen (s +:+ t) = (strlen s + strlen t)%nat.
Proof. induction s as [|c s IH]; [done|]. rewrite str_app_cons. simpl. by rewrite IH. Qed.

Lemma all_chars_app (P : ascii → bool) (s t : string) :
  all_chars P (s +:+ t) = all_chars P s && all_chars P t.
Proof.
  induction s as [|c s IH]; [done|].
  rewrite str_app_cons. simpl. rewrite IH. by rewrite andb_assoc.
Qed.

Lemma last_char_app (prev : option ascii) (s t : string) :
  last_char prev (s +:+ t) = last_char (last_char prev s) t.
Proof.
  revert prev. induction s as [|c s IH]; intros prev; [done|].
  rewrite str_app_cons. simpl. apply IH.
Qed.

Lemma is_digit_word (c : ascii) : is_digit c = true → is_word c = true.
Proof. intros H. unfold is_word. by rewrite H. Qed.

(** ** Regular-expression search *)

Lemma first_some_None {A B : Type} (f : A → option B) (l : list A) :
  (∀ x, x ∈ l → f x = None) → first_some f l = None.
Proof.
  induction l as [|x l IH]; intros H; [done|]. simpl.
  rewrite (H x) by set_solver. apply IH. intros y Hy. apply H. set_solver.
Qed.

Lemma first_some_Some {A B : Type} (f : A → option B) (l : list A) (y : B) :
  first_some f l = Some y → ∃ x, x ∈ l ∧ f x = Some y.
Proof.
  induction l as [|x l IH]; [done|]. simpl.
  destruct (f x) as [z|] eqn:E.
  - intros [= ->]. exists x. split; [apply list_elem_of_here|done].
  - intros H. destruct (IH H) as (x' & ? & ?). exists x'.
    split; [by apply list_elem_of_further|done].
Qed.

(** A search that finds something found it at some position. *)
Lemma search_from_Some {A : Type} (at_pos : option ascii → string → option A)
    (prev : option ascii) (s : string) (x : A) :
  search_from at_pos prev s = Some x →
  ∃ before after,
    s = before +:+ after ∧ at_pos (last_char prev before) after = Some x.
Proof.
  revert prev. induction s as [|c s IH]; intros prev; simpl.
  - destruct (at_pos prev EmptyString) eqn:E; [|done].
    intros [= ->]. by exists EmptyString, EmptyString.
  - destruct (at_pos prev (String c s)) eqn:E.
    + intros [= ->]. by exists EmptyString, (String c s).
    + intros H. destruct (IH _ H) as (before & after & -> & Hat).
      by exists (String c before), after.
Qed.

(** A pattern that cannot start on the characters of [before] is
    searched for after them. *)
Lemma search_from_skip {A : Type} (at_pos : option ascii → string → option A)
    (P : ascii → bool) (prev : option ascii) (before rest : string) :
  (∀ p c r, P c = true → at_pos p (String c r) = None) →
  all_chars P before = true →
  search_from at_pos prev (before +:+ rest)
  = search_from at_pos (last_char prev before) rest.
Proof.
  intros Hat. revert prev.
  induction before as [|c before IH]; intros prev Hall; [done|].
  simpl in Hall. apply andb_prop in Hall as [Hc Hall].
  rewrite str_app_cons. simpl. rewrite (Hat _ _ _ Hc). by apply IH.
Qed.

Lemma search_from_None {A : Type} (at_pos : option ascii → string → option A)
    (P : ascii → bool) (prev : option ascii) (s : string) :
  (∀ p c r, P c = true → at_pos p (String c r) = None) →
  (∀ p, at_pos p EmptyString = None) →
  all_chars P s = true →
  search_from at_pos prev s = None.
Proof.
  intros Hat Hnil Hall.
  rewrite <- (str_app_nil_r s), (search_from_skip at_pos P) by done.
  simpl. by rewrite Hnil.
Qed.

(** ** The two patterns of [parse_year_range] *)

Lemma take_class_Some (P : ascii → bool) (n : nat) (s d rest : string) :
  take_class P n s = Some (d, rest) →
  s = d +:+ rest ∧ strlen d = n ∧ all_chars P d = true.
Proof.
  revert s d rest. induction n as [|n IH]; intros s d rest; simpl.
  - by intros [= <- <-].
  - destruct s as [|c s]; [done|].
    destruct (P c) eqn:Hc; [|done].
    destruct (take_class P n s) as [[d' rest']|] eqn:E; [|done].
    intros [= <- <-]. destruct (IH _ _ _ E) as (-> & <- & Hall).
    simpl. by rewrite Hc, Hall.
Qed.

Lemma take_class_app (P : ascii → bool) (d rest : string) :
  all_chars P d = true → take_class P (strlen d) (d +:+ rest) = Some (d, rest).
Proof.
  induction d as [|c d IH]; [done|].
  intros [Hc Hall]%andb_prop. rewrite str_app_cons. simpl. rewrite Hc.
  by rewrite IH.
Qed.

Lemma take_class_None (P : ascii → bool) (n : nat) (c : ascii) (r : string) :
  P c = false → take_class P (S n) (String c r) = None.
Proof. intros H. simpl. by rewrite H. Qed.

(** Too few characters of the class: the counted repetition fails. *)
Lemma take_class_short (P : ascii → bool) (n : nat) (d : string)
    (c : ascii) (r : string) :
  P c = false → (strlen d < n)%nat →
  take_class P n (d +:+ String c r) = None.
Proof.
  revert d. induction n as [|n IH]; intros d Hc Hlt; [lia|].
  destruct d as [|x d].
  - by apply take_class_None.
  - rewrite str_app_cons. simpl. destruct (P x); [|done].
    rewrite IH; [done..|]. simpl in Hlt. lia.
Qed.

Lemma decade_tail_Some (r : string) :
  decade_tail r = true →
  ∃ sp ap rest,
    r = sp +:+ ap +:+ "s" +:+ rest
    ∧ (sp = EmptyString ∨ ∃ c, is_space c = true ∧ sp = String c EmptyString)
    ∧ (ap = EmptyString ∨ ap = "'")
    ∧ not_word_start rest.
Proof.
  assert (Hs : ∀ t, lit_s_boundary t = true →
            ∃ rest, t = "s" +:+ rest ∧ not_word_start rest).
  { intros [|c t]; [done|]. simpl.
    intros [Hc Hb]%andb_prop. apply Ascii.eqb_eq in Hc as ->.
    exists t. split; [done|]. unfold not_word_start.
    unfold word_boundary in Hb. simpl in Hb.
    by destruct (opt_word (peek t)). }
  assert (Ha : ∀ t, opt_then (Ascii.eqb "'") lit_s_boundary t = true →
            ∃ ap rest, t = ap +:+ "s" +:+ rest
              ∧ (ap = EmptyString ∨ ap = "'") ∧ not_word_start rest).
  { intros t Ht.
    assert (Hplain : lit_s_boundary t = true →
              ∃ ap rest, t = ap +:+ "s" +:+ rest
                ∧ (ap = EmptyString ∨ ap = "'") ∧ not_word_start rest).
    { intros (rest & -> & ?)%Hs. exists EmptyString, rest.
      split; [done|]. split; [by left|done]. }
    destruct t as [|c t]; [by apply Hplain|]. unfold opt_then in Ht.
    destruct (Ascii.eqb "'" c) eqn:Hc; [|by apply Hplain].
    apply orb_prop in Ht as [Ht|Ht]; [|by apply Hplain].
    apply Ascii.eqb_eq in Hc as <-.
    destruct (Hs _ Ht) as (rest & -> & ?). exists "'", rest.
    split; [done|]. split; [by right|done]. }
  intros Hr. unfold decade_tail in Hr.
  assert (Hplain : opt_then (Ascii.eqb "'") lit_s_boundary r = true →
            ∃ sp ap rest, r = sp +:+ ap +:+ "s" +:+ rest
              ∧ (sp = EmptyString
                 ∨ ∃ c, is_space c = true ∧ sp = String c EmptyString)
              ∧ (ap = EmptyString ∨ ap = "'") ∧ not_word_start rest).
  { intros (ap & rest & -> & ? & ?)%Ha. exists EmptyString, ap, rest.
    split; [done|]. split; [by left|]. by split. }
  destruct r as [|c r]; [by apply Hplain|].
  unfold opt_then in Hr at 1.
  destruct (is_space c) eqn:Hc; [|by apply Hplain].
  apply orb_prop in Hr as [Hr|Hr]; [|by apply Hplain].
  destruct (Ha _ Hr) as (ap & rest & -> & ? & ?).
  exists (String c EmptyString), ap, rest.
  split; [done|]. split; [right; by exists c|]. by split.
Qed.

Lemma decade_at_not_digit (p : option ascii) (c : ascii) (r : string) :
  negb (is_digit c) = true → decade_at p (String c r) = None.
Proof.
  intros Hc%negb_true_iff. unfold decade_at.
  destruct (word_boundary p (String c r)); [|done].
  simpl. by rewrite Hc.
Qed.

Lemma decade_at_nil (p : option ascii) : decade_at p EmptyString = None.
Proof. unfold decade_at. by destruct (word_boundary p EmptyString). Qed.

Lemma strip_prefix_other (P : ascii → bool) (a c : ascii) (p r : string) :
  P a = true → P c = false → strip_prefix (String a p) (String c r) = None.
Proof.
  intros Ha Hc. cbn [strip_prefix].
  destruct (Ascii.eqb_spec a c) as [->|]; [congruence|done].
Qed.

Lemma year_at_not_digit (p : option ascii) (c : ascii) (r : string) :
  negb (is_digit c) = true → year_at p (String c r) = None.
Proof.
  intros Hc%negb_true_iff. unfold year_at.
  destruct (word_boundary p (String c r)); [|done].
  cbn [first_some].
  by rewrite !(strip_prefix_other is_digit).
Qed.

Lemma year_at_nil (p : option ascii) : year_at p EmptyString = None.
Proof. unfold year_at. by destruct (word_boundary p EmptyString). Qed.

(** What the decade pattern matched, where it matched. *)
Lemma decade_at_Some (p : option ascii) (s d : string) :
  decade_at p s = Some d →
  ∃ sp ap rest,
    s = d +:+ sp +:+ ap +:+ "s" +:+ rest
    ∧ (2 ≤ strlen d ≤ 4)%nat
    ∧ all_chars is_digit d = true
    ∧ (sp = EmptyString ∨ ∃ c, is_space c = true ∧ sp = String c EmptyString)
    ∧ (ap = EmptyString ∨ ap = "'")
    ∧ opt_word p = false
    ∧ not_word_start rest.
Proof.
  unfold decade_at. destruct (word_boundary p s) eqn:Hb; [|done].
  intros (n & Hn & Hf)%first_some_Some.
  destruct (take_class is_digit n s) as [[d' r]|] eqn:Ht; [|done].
  destruct (decade_tail r) eqn:Hr; [|done].
  injection Hf as ->.
  destruct (take_class_Some _ _ _ _ _ Ht) as (-> & Hlen & Hall).
  destruct (decade_tail_Some _ Hr) as (sp & ap & rest & -> & Hsp & Hap & Hrest).
  assert (2 ≤ n ≤ 4)%nat as Hrange.
  { rewrite !elem_of_cons, elem_of_nil in Hn. lia. }
  exists sp, ap, rest. repeat split; try done; try lia.
  destruct d as [|c d]; [simpl in Hlen; lia|].
  simpl in Hall. apply andb_prop in Hall as [Hc%is_digit_word _].
  unfold word_boundary in Hb. rewrite str_app_cons in Hb. simpl in Hb.
  rewrite Hc in Hb. by destruct (opt_word p).
Qed.

Lemma strip_prefix_Some (p s r : string) :
  strip_prefix p s = Some r → s = p +:+ r.
Proof.
  revert s. induction p as [|a p IH]; intros s; simpl.
  - by intros [= ->].
  - destruct s as [|b s]; [done|].
    destruct (Ascii.eqb_spec a b) as [->|]; [|done].
    intros H%IH. by rewrite H.
Qed.

Lemma strip_prefix_app (p r : string) : strip_prefix p (p +:+ r) = Some r.
Proof.
  induction p as [|a p IH]; [done|].
  rewrite str_app_cons. cbn [strip_prefix]. by rewrite Ascii.eqb_refl.
Qed.

(** What the year pattern matched, where it matched. *)
Lemma year_at_Some (p : option ascii) (s y : string) :
  year_at p s = Some y →
  ∃ century dd rest,
    y = century +:+ dd
    ∧ s = century +:+ dd +:+ rest
    ∧ (century = "19" ∨ century = "20")
    ∧ strlen dd = 2%nat
    ∧ all_chars is_digit dd = true
    ∧ opt_word p = false
    ∧ not_word_start rest.
Proof.
  unfold year_at. destruct (word_boundary p s) eqn:Hb; [|done].
  intros (century & Hin & Hf)%first_some_Some.
  destruct (strip_prefix century s) as [r|] eqn:Hs; [|done].
  destruct (take_class is_digit 2 r) as [[dd rest]|] eqn:Ht; [|done].
  destruct (word_boundary _ rest) eqn:Hb2; [|done].
  injection Hf as <-.
  apply strip_prefix_Some in Hs as ->.
  destruct (take_class_Some _ _ _ _ _ Ht) as (-> & Hlen & Hall).
  assert (century = "19" ∨ century = "20") as Hc.
  { rewrite !elem_of_cons, elem_of_nil in Hin. tauto. }
  exists century, dd, rest. repeat split; try done.
  - unfold word_boundary in Hb.
    assert (opt_word (peek (century +:+ dd +:+ rest)) = true) as Hw
      by (by destruct Hc as [-> | ->]).
    rewrite Hw in Hb. by destruct (opt_word p).
  - unfold not_word_start. unfold word_boundary in Hb2.
    rewrite last_char_app in Hb2.
    destruct dd as [|c1 [|c2 [|? ?]]]; try done.
    simpl in Hall. apply andb_prop in Hall as [_ [H2%is_digit_word _]%andb_prop].
    simpl in Hb2. rewrite H2 in Hb2. by destruct (opt_word (peek rest)).
Qed.

Lemma search_from_here {A : Type} (at_pos : option ascii → string → option A)
    (prev : option ascii) (s : string) (x : A) :
  at_pos prev s = Some x → search_from at_pos prev s = Some x.
Proof. intros H. destruct s; simpl; by rewrite H. Qed.

(** Every decade match of the search is a decade token of the text. *)
Lemma decade_search_sound (s d : string) :
  re_search decade_at s = Some d → decade_token s.
Proof.
  intros (before & after & -> & Hat)%search_from_Some.
  destruct (decade_at_Some _ _ _ Hat)
    as (sp & ap & rest & -> & Hlen & Hall & Hsp & Hap & Hp & Hrest).
  by exists before, d, sp, ap, rest.
Qed.

(** Every year match of the search is a year token of the text. *)
Lemma year_search_sound (s y : string) :
  re_search year_at s = Some y → year_token s.
Proof.
  intros (before & after & -> & Hat)%search_from_Some.
  destruct (year_at_Some _ _ _ Hat)
    as (century & dd & rest & -> & -> & Hc & Hlen & Hall & Hp & Hrest).
  by exists before, century, dd, rest.
Qed.

Lemma is_space_not_digit (c : ascii) : is_space c = true → is_digit c = false.
Proof.
  unfold is_space, is_digit, in_range.
  intros [H|H]%orb_prop; apply andb_prop in H as [H1%Nat.leb_le H2%Nat.leb_le];
    apply andb_false_iff; left; apply Nat.leb_gt; lia.
Qed.

(** The tail of a decade token is matched, and does not start with a
    digit. *)
Lemma decade_tail_match (sp ap after : string) :
  (sp = EmptyString ∨ ∃ c, is_space c = true ∧ sp = String c EmptyString) →
  (ap = EmptyString ∨ ap = "'") →
  not_word_start after →
  decade_tail (sp +:+ ap +:+ "s" +:+ after) = true
  ∧ ∃ c r, sp +:+ ap +:+ "s" +:+ after = String c r ∧ is_digit c = false.
Proof.
  intros Hsp Hap Hafter.
  assert (Hs : lit_s_boundary ("s" +:+ after) = true).
  { change ("s" +:+ after) with (String "s" after).
    unfold lit_s_boundary, word_boundary. rewrite Hafter. reflexivity. }
  assert (Ha : opt_then (Ascii.eqb "'") lit_s_boundary (ap +:+ "s" +:+ after)
               = true).
  { destruct Hap as [-> | ->].
    - rewrite str_app_nil_l. exact Hs.
    - change ("'" +:+ "s" +:+ after) with (String "'" ("s" +:+ after)).
      unfold opt_then. rewrite Ascii.eqb_refl, Hs. done. }
  destruct Hsp as [-> | (c & Hc & ->)].
  - rewrite str_app_nil_l. split.
    + unfold decade_tail.
      destruct Hap as [-> | ->]; [rewrite str_app_nil_l in *|].
      * change ("s" +:+ after) with (String "s" after) in *.
        unfold opt_then at 1. change (is_space "s") with false. exact Ha.
      * change ("'" +:+ "s" +:+ after) with (String "'" ("s" +:+ after)) in *.
        unfold opt_then at 1. change (is_space "'") with false. exact Ha.
    + destruct Hap as [-> | ->]; eexists _, _; split; reflexivity.
  - change (String c EmptyString +:+ ap +:+ "s" +:+ after)
      with (String c (ap +:+ "s" +:+ after)).
    split.
    + unfold decade_tail. unfold opt_then at 1. by rewrite Hc, Ha.
    + eexists _, _. split; [reflexivity|]. by apply is_space_not_digit.
Qed.

(** The decade pattern matches at a decade token. *)
Lemma decade_at_match (p : option ascii) (digits rest : string) :
  opt_word p = false →
  all_chars is_digit digits = true →
  (2 ≤ strlen digits ≤ 4)%nat →
  decade_tail rest = true →
  (∃ c r, rest = String c r ∧ is_digit c = false) →
  decade_at p (digits +:+ rest) = Some digits.
Proof.
  intros Hp Hall Hlen Htail (c & r & -> & Hc). unfold decade_at.
  assert (word_boundary p (digits +:+ String c r) = true) as ->.
  { unfold word_boundary. rewrite Hp.
    destruct digits as [|x d]; [simpl in Hlen; lia|].
    simpl in Hall. apply andb_prop in Hall as [Hx%is_digit_word _].
    rewrite str_app_cons. simpl. by rewrite Hx. }
  assert (Hhit : take_class is_digit (strlen digits) (digits +:+ String c r)
                 = Some (digits, String c r))
    by by apply take_class_app.
  assert (Hmiss : ∀ n, (strlen digits < n)%nat →
            take_class is_digit n (digits +:+ String c r) = None)
    by (intros n Hn; by apply take_class_short).
  assert (strlen digits = 4 ∨ strlen digits = 3 ∨ strlen digits = 2)%nat
    as [E|[E|E]] by lia; rewrite E in Hhit, Hmiss; cbn [first_some].
  - by rewrite Hhit, Htail.
  - rewrite (Hmiss 4%nat) by lia. by rewrite Hhit, Htail.
  - rewrite (Hmiss 4%nat), (Hmiss 3%nat) by lia. by rewrite Hhit, Htail.
Qed.

(** The year pattern matches at a year token. *)
Lemma year_at_match (p : option ascii) (century dd after : string) :
  opt_word p = false →
  century = "19" ∨ century = "20" →
  strlen dd = 2%nat →
  all_chars is_digit dd = true →
  not_word_start after →
  year_at p (century +:+ dd +:+ after) = Some (century +:+ dd).
Proof.
  intros Hp Hc Hlen Hall Hstart. unfold year_at.
  assert (word_boundary p (century +:+ dd +:+ after) = true) as ->.
  { unfold word_boundary. rewrite Hp. by destruct Hc as [-> | ->]. }
  assert (Htake : take_class is_digit 2 (dd +:+ after) = Some (dd, after)).
  { rewrite <- Hlen. by apply take_class_app. }
  assert (Hb : word_boundary (last_char p (century +:+ dd)) after = true).
  { unfold word_boundary. rewrite last_char_app.
    destruct dd as [|c1 [|c2 [|? ?]]]; try done.
    simpl in Hall. apply andb_prop in Hall as [_ [H2%is_digit_word _]%andb_prop].
    simpl. rewrite H2, Hstart. done. }
  destruct Hc as [-> | ->]; cbn [first_some].
  - rewrite (strip_prefix_app "19"), Htake. by rewrite Hb.
  - assert (strip_prefix "19" ("20" +:+ dd +:+ after) = None) as -> by done.
    rewrite (strip_prefix_app "20"), Htake. by rewrite Hb.
Qed.

(** A search over a text that has a match somewhere finds a match. *)
Lemma search_from_complete {A : Type}
    (at_pos : option ascii → string → option A)
    (prev : option ascii) (before after : string) (x : A) :
  at_pos (last_char prev before) after = Some x →
  ∃ y, search_from at_pos prev (before +:+ after) = Some y.
Proof.
  revert prev. induction before as [|c before IH]; intros prev Hat.
  - exists x. by apply search_from_here.
  - rewrite str_app_cons. simpl.
    destruct (at_pos prev (String c (before +:+ after))) as [y|]; [by exists y|].
    by apply IH.
Qed.

(** The search finds a decade match exactly in the texts that have a
    decade token. *)
Lemma decade_search_complete (s : string) :
  decade_token s → ∃ d, re_search decade_at s = Some d.
Proof.
  intros (before & digits & sp & ap & after
          & -> & Hlen & Hall & Hsp & Hap & Hend & Hstart).
  destruct (decade_tail_match sp ap after Hsp Hap Hstart) as [Htail Hfirst].
  apply (search_from_complete decade_at None before _ digits).
  by apply decade_at_match.
Qed.

Lemma year_search_complete (s : string) :
  year_token s → ∃ y, re_search year_at s = Some y.
Proof.
  intros (before & century & dd & after & -> & Hc & Hlen & Hall & Hend & Hstart).
  apply (search_from_complete year_at None before _ (century +:+ dd)).
  by apply year_at_match.
Qed.

Lemma decade_token_iff (s : string) :
  decade_token s ↔ re_search decade_at s ≠ None.
Proof.
  split.
  - intros [d Hd]%decade_search_complete. by rewrite Hd.
  - destruct (re_search decade_at s) as [d|] eqn:E; [|done].
    intros _. by eapply decade_search_sound.
Qed.

Lemma year_token_iff (s : string) :
  year_token s ↔ re_search year_at s ≠ None.
Proof.
  split.
  - intros [d Hd]%year_search_complete. by rewrite Hd.
  - destruct (re_search year_at s) as [d|] eqn:E; [|done].
    intros _. by eapply year_search_sound.
Qed.

Lemma digit_val_range (c : ascii) :
  is_digit c = true → (0 ≤ digit_val c ≤ 9)%Z.
Proof.
  unfold is_digit, in_range, digit_val.
  intros [H1%Nat.leb_le H2%Nat.leb_le]%andb_prop. lia.
Qed.

(** [int] of a century followed by two digits. *)
Lemma int_century (a b c1 c2 : ascii) :
  int (String a (String b (String c1 (String c2 EmptyString))))
  = (1000 * digit_val a + 100 * digit_val b
     + 10 * digit_val c1 + digit_val c2)%Z.
Proof. unfold int. cbn [int_go]. lia. Qed.

Lemma int_two (c1 c2 : ascii) :
  int (String c1 (String c2 EmptyString))
  = (10 * digit_val c1 + digit_val c2)%Z.
Proof. unfold int. cbn [int_go]. lia. Qed.

Lemma no_digit_no_decade_token (s : string) :
  no_digit s = true → ¬ decade_token s.
Proof.
  intros Hs (before & digits & sp & ap & after & -> & Hlen & Hall & _).
  unfold no_digit in Hs. rewrite !all_chars_app in Hs.
  apply andb_prop in Hs as [_ [Hd _]%andb_prop].
  destruct digits as [|c d]; [simpl in Hlen; lia|].
  simpl in Hall, Hd.
  apply andb_prop in Hall as [Hc _]. rewrite Hc in Hd. done.
Qed.

Lemma no_digit_no_year_token (s : string) :
  no_digit s = true → ¬ year_token s.
Proof.
  intros Hs (before & century & dd & after & -> & Hc & _).
  unfold no_digit in Hs. rewrite !all_chars_app in Hs.
  apply andb_prop in Hs as [_ [Hd _]%andb_prop].
  by destruct Hc as [-> | ->].
Qed.

(** ** Leftmost matches *)

(** A pattern that matches at no position of [before] is searched for
    after it. *)
Lemma search_from_first {A : Type} (at_pos : option ascii → string → option A)
    (prev : option ascii) (before rest : string) :
  (∀ b1 b2, before = b1 +:+ b2 → b2 ≠ EmptyString →
     at_pos (last_char prev b1) (b2 +:+ rest) = None) →
  search_from at_pos prev (before +:+ rest)
  = search_from at_pos (last_char prev before) rest.
Proof.
  revert prev. induction before as [|c before IH]; intros prev Hnone; [done|].
  pose proof (Hnone EmptyString (String c before) eq_refl) as H0.
  rewrite str_app_cons in *. cbn [search_from last_char] in *.
  rewrite H0 by done. apply IH.
  intros b1 b2 -> Hb2. by apply (Hnone (String c b1) b2).
Qed.

Lemma none_before_spec {A : Type} (at_pos : option ascii → string → option A)
    (prev : option ascii) (s : string) (n : nat) :
  none_before at_pos prev s n = true →
  ∀ b1 b2, s = b1 +:+ b2 → (strlen b1 < n)%nat →
    at_pos (last_char prev b1) b2 = None.
Proof.
  revert prev s. induction n as [|n IH]; intros prev s Hn b1 b2 -> Hlt; [lia|].
  cbn [none_before] in Hn.
  destruct (at_pos prev (b1 +:+ b2)) eqn:Hat; [done|].
  destruct b1 as [|c b1]; [exact Hat|].
  rewrite str_app_cons in Hn. cbn [last_char].
  apply (IH _ _ Hn); [done|]. simpl in Hlt. lia.
Qed.

Lemma strlen_app_lt (b1 b2 : string) :
  b2 ≠ EmptyString → (strlen b1 < strlen (b1 +:+ b2))%nat.
Proof. rewrite strlen_app. destruct b2; [done|]. simpl. lia. Qed.

(** The decade pattern matches where a decade token starts, and nowhere
    else. *)
Lemma decade_at_iff (before rest digits : string) :
  decade_at (last_char None before) rest = Some digits
  ↔ decade_token_at before rest digits.
Proof.
  split.
  - intros (sp & ap & after & -> & ? & ? & ? & ? & ? & ?)%decade_at_Some.
    by exists sp, ap, after.
  - intros (sp & ap & after & -> & Hlen & Hall & Hsp & Hap & Hend & Hstart).
    destruct (decade_tail_match sp ap after Hsp Hap Hstart) as [Htail Hfirst].
    by apply decade_at_match.
Qed.

Lemma year_at_iff (before rest y : string) :
  year_at (last_char None before) rest = Some y ↔ year_token_at before rest y.
Proof.
  split.
  - intros (century & dd & after & -> & -> & ? & ? & ? & ? & ?)%year_at_Some.
    exists century, dd, after. by rewrite str_app_assoc.
  - intros (century & dd & after & -> & -> & Hc & Hlen & Hall & Hend & Hstart).
    rewrite str_app_assoc. by apply year_at_match.
Qed.

(** The search returns the digits of the first decade token. *)
Lemma first_decade_search (s digits : string) :
  first_decade_token s digits → re_search decade_at s = Some digits.
Proof.
  intros (before & rest & -> & Hat & Hfirst). unfold re_search.
  rewrite search_from_first.
  - apply search_from_here. by apply decade_at_iff.
  - intros b1 b2 -> Hb2.
    destruct (decade_at (last_char None b1) (b2 +:+ rest)) as [d|] eqn:E; [|done].
    apply decade_at_iff in E. exfalso.
    apply (Hfirst b1 (b2 +:+ rest) d); [by rewrite str_app_assoc| |done].
    by apply strlen_app_lt.
Qed.

Lemma first_year_search (s y : string) :
  first_year_token s y → re_search year_at s = Some y.
Proof.
  intros (before & rest & -> & Hat & Hfirst). unfold re_search.
  rewrite search_from_first.
  - apply search_from_here. by apply year_at_iff.
  - intros b1 b2 -> Hb2.
    destruct (year_at (last_char None b1) (b2 +:+ rest)) as [d|] eqn:E; [|done].
    apply year_at_iff in E. exfalso.
    apply (Hfirst b1 (b2 +:+ rest) d); [by rewrite str_app_assoc| |done].
    by apply strlen_app_lt.
Qed.

(** A check of the first positions by computation. *)
Lemma no_decade_token_before_check (n : nat) (s : string) :
  none_before decade_at None s n = true → no_decade_token_before n s.
Proof.
  intros Hn b1 b2 d Hs Hlt Hat%decade_at_iff.
  by rewrite (none_before_spec _ _ _ _ Hn b1 b2 Hs Hlt) in Hat.
Qed.

Lemma no_year_token_before_check (n : nat) (s : string) :
  none_before year_at None s n = true → no_year_token_before n s.
Proof.
  intros Hn b1 b2 d Hs Hlt Hat%year_at_iff.
  by rewrite (none_before_spec _ _ _ _ Hn b1 b2 Hs Hlt) in Hat.
Qed.

(** ** C4: [parse_year_range] *)

(** C4, as the claim states it, fails: a text can contain "1920s" and
    be parsed to another range, here the one of the decade token that
    comes first. *)
Lemma parse_year_range_1920s_counterexample :
  contains "1920s" "80s and 1920s" = true
  ∧ parse_year_range "80s and 1920s" = Some (1980, 1989)%Z
  ∧ parse_year_range "80s and 1920s" ≠ Some (1920, 1929)%Z.
Proof. split; [|split]; [reflexivity..|discriminate]. Qed.

(** C4 (amended). [parse_year_range] returns (1990, 1999) on
    "90s movies", and on an ASCII text whose first decade token has two
    digits the range that starts at the digits prefixed with "19"; it
    returns (1920, 1929) on an ASCII text in which "1920s" stands
    between word boundaries and no decade token starts before it; it
    returns (2015, 2015) on "from 2015", and (year, year), with the year
    between 1900 and 2099, on an ASCII text that has no decade token and
    whose first four-digit year token is that year; it returns no match
    on "timeless classics", and on an ASCII text exactly when the text
    has neither a decade token nor a four-digit year token. *)
Theorem parse_year_range_cases :
  parse_year_range "90s movies" = Some (1990, 1999)%Z
  ∧ (∀ s digits,
       ascii_text s = true →
       first_decade_token s digits → strlen digits = 2%nat →
       let start := int ("19" +:+ digits) in
       parse_year_range s = Some (start, start + 9)%Z
       ∧ start = (1900 + int digits)%Z)
  ∧ (∀ before after,
       ascii_text (before +:+ "1920s" +:+ after) = true →
       not_word_end before → not_word_start after →
       no_decade_token_before (strlen before) (before +:+ "1920s" +:+ after) →
       parse_year_range (before +:+ "1920s" +:+ after)
       = Some (1920, 1929)%Z)
  ∧ parse_year_range "from 2015" = Some (2015, 2015)%Z
  ∧ (∀ s y,
       ascii_text s = true →
       ¬ decade_token s → first_year_token s y →
       parse_year_range s = Some (int y, int y)
       ∧ (1900 ≤ int y ≤ 2099)%Z)
  ∧ parse_year_range "timeless classics" = None
  ∧ (∀ s, ascii_text s = true →
       (parse_year_range s = None ↔ ¬ decade_token s ∧ ¬ year_token s)).
Proof.
  split; [reflexivity|]. split; [|split; [|split; [reflexivity|split;
    [|split; [reflexivity|]]]]].
  - intros s digits _ Hfirst Hlen start.
    pose proof Hfirst as (? & ? & _ & (? & ? & ? & _ & _ & Hall & _) & _).
    unfold parse_year_range. rewrite (first_decade_search _ _ Hfirst).
    rewrite Hlen. cbn [Nat.eqb]. split; [done|].
    subst start. destruct digits as [|c1 [|c2 [|? ?]]]; try done.
    change ("19" +:+ String c1 (String c2 EmptyString))
      with (String "1" (String "9" (String c1 (String c2 EmptyString)))).
    rewrite int_century, int_two.
    change (digit_val "1") with 1%Z. change (digit_val "9") with 9%Z. lia.
  - intros before after _ Hend Hstart Hfirst. unfold parse_year_range.
    rewrite (first_decade_search _ "1920"); [reflexivity|].
    exists before, ("1920s" +:+ after). split; [done|]. split; [|done].
    exists EmptyString, EmptyString, after.
    repeat split; try done; try (by left); simpl; lia.
  - intros s y _ Hno Hfirst. unfold parse_year_range.
    destruct (re_search decade_at s) as [d|] eqn:E.
    { exfalso. apply Hno. by eapply decade_search_sound. }
    rewrite (first_year_search _ _ Hfirst). split; [done|].
    destruct Hfirst as (? & ? & _ & (century & dd & ? & -> & _ & Hc & Hlen
                                      & Hall & _) & _).
    destruct dd as [|c1 [|c2 [|? ?]]]; try done.
    simpl in Hall.
    apply andb_prop in Hall as [H1%digit_val_range
                                  [H2%digit_val_range _]%andb_prop].
    destruct Hc as [-> | ->].
    + change ("19" +:+ String c1 (String c2 EmptyString))
        with (String "1" (String "9" (String c1 (String c2 EmptyString)))).
      rewrite int_century.
      change (digit_val "1") with 1%Z. change (digit_val "9") with 9%Z. lia.
    + change ("20" +:+ String c1 (String c2 EmptyString))
        with (String "2" (String "0" (String c1 (String c2 EmptyString)))).
      rewrite int_century.
      change (digit_val "2") with 2%Z. change (digit_val "0") with 0%Z. lia.
  - intros s _. rewrite decade_token_iff, year_token_iff.
    unfold parse_year_range.
    destruct (re_search decade_at s) as [d|]; [|destruct (re_search year_at s)];
      split; try done.
    + intros [H _]. by destruct H.
    + intros [_ H]. by destruct H.
    + intros _. split; intros H; by apply H.
Qed.

Lemma parse_year_range_cases_witness :
  parse_year_range "best of the 80s" = Some (1980, 1989)%Z
  ∧ parse_year_range ("top 10 films of the " +:+ "1920s" +:+ EmptyString)
    = Some (1920, 1929)%Z
  ∧ parse_year_range "5 films from 2015" = Some (2015, 2015)%Z
  ∧ parse_year_range "timeless classics" = None.
Proof.
  destruct parse_year_range_cases as (_ & H2 & H3 & _ & H5 & _ & H7).
  split; [|split; [|split]].
  - apply (H2 "best of the 80s" "80"); [reflexivity| |reflexivity].
    exists "best of the ", "80s". split; [reflexivity|]. split.
    + exists EmptyString, EmptyString, EmptyString.
      repeat split; try reflexivity; try (by left); simpl; lia.
    + apply no_decade_token_before_check. reflexivity.
  - apply (H3 "top 10 films of the " EmptyString); try reflexivity.
    apply no_decade_token_before_check. reflexivity.
  - apply (H5 "5 films from 2015" "2015"); [reflexivity| |].
    + intros H%decade_token_iff. apply H. reflexivity.
    + exists "5 films from ", "2015". split; [reflexivity|]. split.
      * exists "20", "15", EmptyString.
        repeat split; try reflexivity. by right.
      * apply no_year_token_before_check. reflexivity.
  - apply (H7 "timeless classics"); [reflexivity|]. split.
    + apply no_digit_no_decade_token. reflexivity.
    + apply no_digit_no_year_token. reflexivity.
Defined.

(** ** C5: [parse_genre] *)

Lemma Qgtb_true (x y : Q) : Qgtb x y = true ↔ (y < x)%Q.
Proof.
  unfold Qgtb. rewrite negb_true_iff, <- not_true_iff_false, Qle_bool_iff.
  split; [apply Qnot_le_lt|apply Qlt_not_le].
Qed.

Lemma Qgtb_false (x y : Q) : Qgtb x y = false ↔ (x <= y)%Q.
Proof. unfold Qgtb. by rewrite negb_false_iff, Qle_bool_iff. Qed.

Lemma starts_with_app (p r : string) : starts_with p (p +:+ r) = true.
Proof.
  induction p as [|a p IH]; [done|].
  rewrite str_app_cons. cbn [starts_with]. by rewrite Ascii.eqb_refl.
Qed.

Lemma contains_app (p before after : string) :
  contains p (before +:+ p +:+ after) = true.
Proof.
  induction before as [|c before IH].
  - rewrite str_app_nil_l. destruct p as [|a p]; [by destruct after|].
    rewrite str_app_cons. cbn [contains]. rewrite <- str_app_cons.
    by rewrite starts_with_app.
  - rewrite str_app_cons. cbn [contains]. rewrite IH. by rewrite orb_true_r.
Qed.

Lemma starts_with_Some (p s : string) :
  starts_with p s = true → ∃ r, s = p +:+ r.
Proof.
  revert s. induction p as [|a p IH]; intros s; [by exists s|].
  destruct s as [|b s]; [done|]. cbn [starts_with].
  intros [->%Ascii.eqb_eq [r ->]%IH]%andb_prop. by exists r.
Qed.

(** [p in s] holds exactly when [s] is [p] between two texts. *)
Lemma contains_iff (p s : string) :
  contains p s = true ↔ ∃ before after, s = before +:+ p +:+ after.
Proof.
  split.
  - induction s as [|c s IH]; cbn [contains].
    + rewrite orb_false_r. intros [r ->]%starts_with_Some.
      by exists EmptyString, r.
    + intros [[r ->]%starts_with_Some|(before & after & ->)%IH]%orb_prop.
      * by exists EmptyString, r.
      * by exists (String c before), after.
  - intros (before & after & ->). apply contains_app.
Qed.

(** The first element on which [f] answers decides [first_some]. *)
Lemma first_some_first {A B : Type} (f : A → option B)
    (pre : list A) (x : A) (post : list A) (y : B) :
  (∀ x', x' ∈ pre → f x' = None) → f x = Some y →
  first_some f (pre ++ x :: post) = Some y.
Proof.
  intros Hpre Hx. induction pre as [|a pre IH]; simpl.
  - by rewrite Hx.
  - rewrite (Hpre a) by apply list_elem_of_here.
    apply IH. intros x' Hx'. apply Hpre. by apply list_elem_of_further.
Qed.

(** C5, as the claim states it, fails: with no alias and no exact
    word, the first genre of the vocabulary that is within reach of
    some token ("action", of the second token) is not the answer; the
    first token decides. *)
Lemma parse_genre_order_counterexample :
  contains "scifi" "horor acton" = false
  ∧ (∀ genre, genre ∈ genres → exact_word genre "horor acton" = false)
  ∧ first_genre_above_80 fuzz_ratio "horor acton" = Some "action"
  ∧ parse_genre "horor acton" = Some "horror".
Proof.
  split; [reflexivity|]. split; [|split; reflexivity].
  intros genre Hin. unfold genres in Hin.
  repeat (apply elem_of_cons in Hin as [-> | Hin]; [reflexivity|]).
  by apply elem_of_nil in Hin.
Qed.

(** C5 (amended). [parse_genre] returns "sci-fi" whenever the text
    contains the alias "scifi"; otherwise the first genre of the
    vocabulary that stands in the text as a word between spaces;
    otherwise, on an ASCII text, the genre of the first pair of a token
    and a genre, the tokens in the order of the text and for each token
    the genres in the order of the vocabulary, whose similarity ratio
    exceeds 80 (the first match wins, also over a later pair of a higher
    ratio); and no match when no pair does. In particular
    "I like scifi films" gives "sci-fi", "horor movie" gives "horror"
    and "plain drama" gives "drama". *)
Theorem parse_genre_steps :
  (∀ ratio before after,
     parse_genre_with ratio (before +:+ "scifi" +:+ after) = Some "sci-fi")
  ∧ (∀ ratio q pre genre post,
       contains "scifi" q = false →
       genres = pre ++ genre :: post →
       (∀ g, g ∈ pre → exact_word g q = false) →
       exact_word genre q = true →
       parse_genre_with ratio q = Some genre)
  ∧ (∀ ratio q wpre word wpost gpre genre gpost,
       ascii_text q = true →
       contains "scifi" q = false →
       (∀ g, g ∈ genres → exact_word g q = false) →
       split_ws q = wpre ++ word :: wpost →
       genres = gpre ++ genre :: gpost →
       (∀ w g, w ∈ wpre → g ∈ genres → (ratio g w <= 80)%Q) →
       (∀ g, g ∈ gpre → (ratio g word <= 80)%Q) →
       (80 < ratio genre word)%Q →
       parse_genre_with ratio q = Some genre)
  ∧ (∀ ratio q,
       ascii_text q = true →
       contains "scifi" q = false →
       (∀ g, g ∈ genres → exact_word g q = false) →
       (∀ w g, w ∈ split_ws q → g ∈ genres → (ratio g w <= 80)%Q) →
       parse_genre_with ratio q = None)
  ∧ parse_genre "I like scifi films" = Some "sci-fi"
  ∧ parse_genre "horor movie" = Some "horror"
  ∧ parse_genre "plain drama" = Some "drama"
  ∧ (parse_genre "acton horrorr" = Some "action"
     ∧ (fuzz_ratio "action" "acton" < fuzz_ratio "horror" "horrorr")%Q).
Proof.
  assert (Hexact : ∀ q, (∀ g, g ∈ genres → exact_word g q = false) →
            first_some
              (λ genre, if contains (" " +:+ genre +:+ " ") (" " +:+ q +:+ " ")
                        then Some genre else None) genres = None).
  { intros q Hno. apply first_some_None. intros g Hg.
    fold (exact_word g q). by rewrite Hno. }
  split; [|split; [|split; [|split]]].
  - intros ratio before after. unfold parse_genre_with.
    by rewrite contains_app.
  - intros ratio q pre genre post Halias Hsplit Hpre Hhit.
    unfold parse_genre_with. rewrite Halias, Hsplit.
    erewrite first_some_first; [done| |].
    + intros g Hg. fold (exact_word g q). by rewrite Hpre.
    + fold (exact_word genre q). by rewrite Hhit.
  - intros ratio q wpre word wpost gpre genre gpost
      _ Halias Hno Hwords Hgenres Hwpre Hgpre Hhit.
    unfold parse_genre_with. rewrite Halias, Hexact, Hwords by done.
    apply first_some_first.
    + intros w Hw. apply first_some_None. intros g Hg.
      by rewrite (proj2 (Qgtb_false _ _) (Hwpre w g Hw Hg)).
    + rewrite Hgenres. apply first_some_first.
      * intros g Hg. by rewrite (proj2 (Qgtb_false _ _) (Hgpre g Hg)).
      * by rewrite (proj2 (Qgtb_true _ _) Hhit).
  - intros ratio q _ Halias Hno Hall.
    unfold parse_genre_with. rewrite Halias, Hexact by done.
    apply first_some_None. intros w Hw.
    apply first_some_None. intros g Hg.
    by rewrite (proj2 (Qgtb_false _ _) (Hall w g Hw Hg)).
  - repeat split; reflexivity.
Qed.

Lemma parse_genre_steps_witness :
  parse_genre_with fuzz_ratio "plain drama" = Some "drama"
  ∧ parse_genre_with fuzz_ratio "horor movie" = Some "horror"
  ∧ parse_genre_with fuzz_ratio "xyz qq" = None.
Proof.
  destruct parse_genre_steps as (_ & H2 & H3 & H4 & _).
  assert (Hnone : ∀ q,
            forallb (λ g, negb (exact_word g q)) genres = true →
            ∀ g, g ∈ genres → exact_word g q = false).
  { intros q Hq g Hg. rewrite forallb_forall in Hq.
    apply negb_true_iff, Hq. by apply list_elem_of_In. }
  assert (Hle : ∀ (ws gs : list string),
            forallb (λ w, forallb (λ g, Qle_bool (fuzz_ratio g w) 80) gs) ws
            = true →
            ∀ w g, w ∈ ws → g ∈ gs → (fuzz_ratio g w <= 80)%Q).
  { intros ws gs H w g Hw Hg. rewrite forallb_forall in H.
    apply list_elem_of_In, H in Hw. rewrite forallb_forall in Hw.
    apply Qle_bool_iff, Hw. by apply list_elem_of_In. }
  split; [|split].
  - apply (H2 fuzz_ratio "plain drama" (take 7 genres) "drama" (drop 8 genres)).
    + reflexivity.
    + reflexivity.
    + intros g Hg. simpl in Hg.
      repeat (apply elem_of_cons in Hg as [-> | Hg]; [reflexivity|]).
      by apply elem_of_nil in Hg.
    + reflexivity.
  - apply (H3 fuzz_ratio "horor movie" [] "horor" ["movie"]
             (take 11 genres) "horror" (drop 12 genres)).
    + reflexivity.
    + reflexivity.
    + apply Hnone. reflexivity.
    + reflexivity.
    + reflexivity.
    + intros w g Hw. by apply elem_of_nil in Hw.
    + intros g Hg. apply (Hle ["horor"] (take 11 genres));
        [reflexivity|apply list_elem_of_here|done].
    + apply Qgtb_true. reflexivity.
  - apply (H4 fuzz_ratio "xyz qq").
    + reflexivity.
    + reflexivity.
    + apply Hnone. reflexivity.
    + apply Hle. reflexivity.
Defined.

(** ** Deduplication by a key *)

Section dedup.
Context `{Countable K} (key : Document → K).

Lemma dedup_by_elem (seen : gset K) (docs : list Document) (doc : Document) :
  doc ∈ dedup_by key seen docs → doc ∈ docs ∧ key doc ∉ seen.
Proof.
  revert seen. induction docs as [|d docs IH]; intros seen; simpl.
  - by intros ?%elem_of_nil.
  - destruct (decide (key d ∈ seen)) as [Hin|Hout].
    + intros [? ?]%IH. split; [by apply list_elem_of_further|done].
    + intros [->|[? Hnew]%IH]%elem_of_cons.
      * split; [apply list_elem_of_here|done].
      * split; [by apply list_elem_of_further|].
        intros ?. apply Hnew, elem_of_union. by right.
Qed.

Lemma dedup_by_NoDup (seen : gset K) (docs : list Document) :
  NoDup (key <$> dedup_by key seen docs).
Proof.
  revert seen. induction docs as [|d docs IH]; intros seen; simpl.
  - constructor.
  - destruct (decide (key d ∈ seen)); [apply IH|].
    rewrite fmap_cons. apply NoDup_cons. split; [|apply IH].
    intros (d' & Hkey & [_ Hd']%dedup_by_elem)%list_elem_of_fmap.
    apply Hd', elem_of_union. left. by apply elem_of_singleton.
Qed.

(** The first document of a list is kept when its key is new. *)
Lemma dedup_by_head (seen : gset K) (doc : Document) (rest : list Document) :
  key doc ∉ seen →
  dedup_by key seen (doc :: rest)
  = doc :: dedup_by key ({[ key doc ]} ∪ seen) rest.
Proof. intros Hout. simpl. by destruct (decide (key doc ∈ seen)). Qed.

Lemma take_dedup_NoDup (n : nat) (seen : gset K) (docs : list Document) :
  NoDup (key <$> take n (dedup_by key seen docs)).
Proof.
  rewrite fmap_take.
  eapply sublist_NoDup; [apply dedup_by_NoDup|apply sublist_take].
Qed.

Lemma take_dedup_elem (n : nat) (seen : gset K) (docs : list Document)
    (doc : Document) :
  doc ∈ take n (dedup_by key seen docs) → doc ∈ docs ∧ key doc ∉ seen.
Proof. intros Hin%subseteq_take. by apply dedup_by_elem. Qed.

End dedup.

(** ** The loop of [search_movies] *)

Lemma filter_passes_cons (yr : option (Z * Z)) (gf : option string)
    (doc : Document) (rest : list Document) :
  List.filter (passes yr gf) (doc :: rest)
  = if passes yr gf doc then doc :: List.filter (passes yr gf) rest
    else List.filter (passes yr gf) rest.
Proof. reflexivity. Qed.

(** From a state with fewer than five documents, the loop appends the
    first documents of the remaining results that pass the filters and
    carry a new title, up to five in all. *)
Lemma search_loop_spec (yr : option (Z * Z)) (gf : option string)
    (results filtered : list Document) (seen : gset string) :
  length filtered < 5 →
  search_loop yr gf results filtered seen
  = filtered
    ++ take (5 - length filtered)
         (dedup_by doc_title seen (List.filter (passes yr gf) results)).
Proof.
  revert filtered seen.
  induction results as [|doc rest IH]; intros filtered seen Hlen.
  - simpl. by rewrite take_nil, app_nil_r.
  - cbn [search_loop]. rewrite filter_passes_cons. unfold passes at 1.
    destruct (decide (doc_title doc ∈ seen)) as [Hin|Hout].
    { rewrite IH by done.
      destruct (year_check yr doc && genre_check gf doc); [|done].
      simpl. by destruct (decide (doc_title doc ∈ seen)). }
    destruct (year_check yr doc); cbn [negb andb]; [|by apply IH].
    destruct (genre_check gf doc); cbn [negb]; [|by apply IH].
    rewrite dedup_by_head by done. rewrite length_app. cbn [length].
    destruct (5 <=? length filtered + 1) eqn:E.
    + apply Nat.leb_le in E.
      replace (5 - length filtered) with 1 by lia. cbn [take].
      by rewrite take_0.
    + apply Nat.leb_gt in E. rewrite IH by (rewrite length_app; simpl; lia).
      rewrite length_app. cbn [length].
      replace (5 - length filtered) with (S (5 - (length filtered + 1))) by lia.
      cbn [take]. by rewrite <- app_assoc.
Qed.

Lemma search_hits_spec (vs : VectorStore) (query : string) :
  search_hits vs query
  = take 5
      (dedup_by doc_title ∅
         (List.filter
            (passes (parse_year_range (lower query))
                    (parse_genre (lower query)))
            (similarity_search vs query 30))).
Proof. unfold search_hits. by rewrite search_loop_spec by (simpl; lia). Qed.

(** ** The year marker *)

Lemma year_marker_at_Some (p : option ascii) (s digits : string) :
  year_marker_at p s = Some digits →
  ∃ after, s = "Year: " +:+ digits +:+ after
    ∧ strlen digits = 4 ∧ all_chars is_digit digits = true.
Proof.
  unfold year_marker_at.
  destruct (strip_prefix "Year: " s) as [r|] eqn:Hs; [|done].
  destruct (take_class is_digit 4 r) as [[d after]|] eqn:Ht; [|done].
  intros [= ->]. apply strip_prefix_Some in Hs as ->.
  destruct (take_class_Some _ _ _ _ _ Ht) as (-> & ? & ?). by exists after.
Qed.

Lemma year_marker_at_match (p : option ascii) (digits after : string) :
  strlen digits = 4 → all_chars is_digit digits = true →
  year_marker_at p ("Year: " +:+ digits +:+ after) = Some digits.
Proof.
  intros Hlen Hall. unfold year_marker_at.
  rewrite (strip_prefix_app "Year: "), <- Hlen.
  by rewrite take_class_app.
Qed.

(** The search finds a marker exactly in the texts that have one. *)
Lemma year_marker_iff (s : string) :
  year_marker s ↔ re_search year_marker_at s ≠ None.
Proof.
  split.
  - intros (before & digits & after & -> & Hlen & Hall).
    destruct (search_from_complete year_marker_at None before
                ("Year: " +:+ digits +:+ after) digits) as [y Hy].
    { by apply year_marker_at_match. }
    unfold re_search. by rewrite Hy.
  - destruct (re_search year_marker_at s) as [d|] eqn:E; [|done].
    intros _. apply search_from_Some in E as (before & after & -> & Hat).
    apply year_marker_at_Some in Hat as (after' & -> & ? & ?).
    by exists before, d, after'.
Qed.

Lemma year_marker_None (s : string) :
  ¬ year_marker s ↔ re_search year_marker_at s = None.
Proof.
  rewrite year_marker_iff.
  destruct (re_search year_marker_at s) as [d|]; split; try done.
  - intros H. by destruct H.
  - intros _ H. by apply H.
Qed.

Lemma year_marker_at_iff (p : option ascii) (rest digits : string) :
  year_marker_at p rest = Some digits ↔ year_marker_here rest digits.
Proof.
  split.
  - by intros (after & -> & ? & ?)%year_marker_at_Some; exists after.
  - intros (after & -> & Hlen & Hall). by apply year_marker_at_match.
Qed.

(** The search returns the digits of the first year marker. *)
Lemma first_marker_search (s digits : string) :
  first_year_marker s digits → re_search year_marker_at s = Some digits.
Proof.
  intros (before & rest & -> & Hat & Hfirst). unfold re_search.
  rewrite search_from_first.
  - apply search_from_here. by apply year_marker_at_iff.
  - intros b1 b2 -> Hb2.
    destruct (year_marker_at (last_char None b1) (b2 +:+ rest)) as [d|] eqn:E;
      [|done].
    apply year_marker_at_iff in E. exfalso.
    apply (Hfirst b1 (b2 +:+ rest) d); [by rewrite str_app_assoc| |done].
    by apply strlen_app_lt.
Qed.

(** A search that finds something found it at the first position where
    the pattern matches. *)
Lemma search_from_leftmost {A : Type}
    (at_pos : option ascii → string → option A)
    (prev : option ascii) (s : string) (x : A) :
  search_from at_pos prev s = Some x →
  ∃ before after,
    s = before +:+ after
    ∧ at_pos (last_char prev before) after = Some x
    ∧ ∀ b1 b2, s = b1 +:+ b2 → (strlen b1 < strlen before)%nat →
        at_pos (last_char prev b1) b2 = None.
Proof.
  revert prev. induction s as [|c s IH]; intros prev; cbn [search_from].
  - destruct (at_pos prev EmptyString) eqn:E; [|done].
    intros [= ->]. exists EmptyString, EmptyString.
    split; [done|]. split; [done|]. intros ? ? _ Hlt. simpl in Hlt. lia.
  - destruct (at_pos prev (String c s)) eqn:E.
    + intros [= ->]. exists EmptyString, (String c s).
      split; [done|]. split; [done|]. intros ? ? _ Hlt. simpl in Hlt. lia.
    + intros H. destruct (IH _ H) as (before & after & -> & Hat & Hfirst).
      exists (String c before), after. split; [done|]. split; [done|].
      intros [|c' b1] b2 Hs Hlt.
      * rewrite str_app_nil_l in Hs. by subst b2.
      * rewrite !str_app_cons in Hs. injection Hs as <- Hs.
        cbn [last_char]. apply Hfirst; [done|]. simpl in Hlt. lia.
Qed.

(** The first year marker of a text is what the search returns. *)
Lemma first_year_marker_iff (s digits : string) :
  first_year_marker s digits ↔ re_search year_marker_at s = Some digits.
Proof.
  split; [apply first_marker_search|].
  intros (before & after & -> & Hat & Hfirst)%search_from_leftmost.
  exists before, after. split; [done|].
  split; [by apply year_marker_at_iff in Hat|].
  intros b1 b2 d Hs Hlt Hd%(year_marker_at_iff (last_char None b1)).
  by rewrite (Hfirst b1 b2 Hs Hlt) in Hd.
Qed.

(** A text with a year marker has a first one. *)
Lemma year_marker_first (s : string) :
  year_marker s ↔ ∃ digits, first_year_marker s digits.
Proof.
  rewrite year_marker_iff. split.
  - destruct (re_search year_marker_at s) as [d|] eqn:E; [|done].
    intros _. exists d. by apply first_year_marker_iff.
  - intros [d Hd%first_year_marker_iff]. by rewrite Hd.
Qed.


(** ** The answer of [search_movies] *)






(** ** C1: [search_movies] *)



(** ** C10: documents without a year marker *)

(** C10. The year check never fails on a document whose text has no
    year marker: with a parsed range, it fails exactly on the documents
    that bear a marker whose year lies outside the range. A document
    without a marker that passes the genre check, and before which no
    candidate passes the filters, is listed. *)
Theorem year_filter_keeps_markerless :
  (∀ year_range doc,
     ¬ year_marker (page_content doc) → year_check year_range doc = true)
  ∧ (∀ lo hi doc,
       year_check (Some (lo, hi)) doc = false ↔
       ∃ digits,
         re_search year_marker_at (page_content doc) = Some digits
         ∧ ¬ (lo ≤ int digits ≤ hi)%Z)
  ∧ (∀ vs query before doc after,
       similarity_search vs query 30 = before ++ doc :: after →
       (∀ d, d ∈ before →
          passes (parse_year_range (lower query))
                 (parse_genre (lower query)) d = false) →
       ¬ year_marker (page_content doc) →
       genre_check (parse_genre (lower query)) doc = true →
       doc ∈ search_hits vs query).
Proof.
  split; [|split].
  - intros year_range doc Hno%year_marker_None. unfold year_check.
    rewrite Hno. by destruct year_range as [[? ?]|].
  - intros lo hi doc. unfold year_check.
    destruct (re_search year_marker_at (page_content doc)) as [d|].
    + rewrite andb_false_iff, !Z.leb_gt. split.
      * intros H. exists d. split; [done|lia].
      * intros (d' & [= <-] & H). lia.
    + split; [done|]. by intros (d' & ? & _).
  - intros vs query before doc after Hres Hbefore Hno%year_marker_None Hgenre.
    rewrite search_hits_spec, Hres. clear Hres.
    assert (List.filter
              (passes (parse_year_range (lower query))
                      (parse_genre (lower query)))
              (before ++ doc :: after)
            = doc :: List.filter
                       (passes (parse_year_range (lower query))
                               (parse_genre (lower query))) after) as ->.
    { induction before as [|d before IH]; simpl.
      - unfold passes at 1, year_check. rewrite Hno, Hgenre.
        by destruct (parse_year_range (lower query)) as [[? ?]|].
      - rewrite (Hbefore d) by apply list_elem_of_here.
        apply IH. intros d' Hd'. apply Hbefore.
        by apply list_elem_of_further. }
    rewrite dedup_by_head by apply not_elem_of_empty.
    apply list_elem_of_here.
Qed.

Lemma year_filter_keeps_markerless_witness :
  parse_year_range (lower "90s movies with De Niro") = Some (1990, 1999)%Z
  ∧ Sample.heat_cast
    ∈ search_hits
        {| similarity_search := λ _ k, take k [Sample.alien; Sample.heat_cast] |}
        "90s movies with De Niro".
Proof.
  split; [reflexivity|].
  destruct year_filter_keeps_markerless as (_ & _ & H).
  apply (H _ "90s movies with De Niro" [Sample.alien] Sample.heat_cast []).
  - reflexivity.
  - intros d ->%list_elem_of_singleton. reflexivity.
  - apply year_marker_None. reflexivity.
  - reflexivity.
Defined.

(** ** C8: [recommend_similar_movies] *)

Lemma recommend_lines_app (l1 l2 : list Document) :
  recommend_lines (l1 ++ l2) = recommend_lines l1 +:+ recommend_lines l2.
Proof.
  induction l1 as [|d l1 IH]; [done|]. simpl.
  by rewrite IH, !str_app_assoc.
Qed.

(** From a state with fewer than five lines written, the loop writes
    the lines of the first similar documents whose title is neither the
    reference's nor seen before, up to five in all. *)
Lemma recommend_loop_spec (ref_title : option string)
    (similar : list Document) (output : string)
    (seen : gset (option string)) (count : nat) (picked : list Document) :
  count < 5 →
  let chosen :=
    take (5 - count)
      (dedup_by doc_title_opt ({[ ref_title ]} ∪ seen) similar) in
  recommend_loop ref_title similar output seen count picked
  = (output +:+ recommend_lines chosen, picked ++ chosen).
Proof.
  revert output seen count picked.
  induction similar as [|doc rest IH]; intros output seen count picked Hlt.
  - simpl. by rewrite take_nil, str_app_nil_r, app_nil_r.
  - cbn [recommend_loop dedup_by]. fold (doc_title_opt doc).
    destruct (decide (doc_title_opt doc = ref_title ∨ doc_title_opt doc ∈ seen))
      as [Hskip|Hkeep].
    + rewrite decide_True
        by (rewrite elem_of_union, elem_of_singleton; tauto).
      by apply IH.
    + rewrite decide_False
        by (rewrite elem_of_union, elem_of_singleton; tauto).
      destruct (5 <=? S count) eqn:E.
      * apply Nat.leb_le in E. replace (5 - count) with 1 by lia.
        cbn [take]. rewrite take_0. simpl. by rewrite str_app_nil_r.
      * apply Nat.leb_gt in E. cbv zeta. rewrite IH by lia.
        replace (5 - count) with (S (5 - S count)) by lia. cbn [take].
        replace ({[ref_title]} ∪ ({[doc_title_opt doc]} ∪ seen))
          with ({[doc_title_opt doc]} ∪ ({[ref_title]} ∪ seen))
          by (apply set_eq; intros x; rewrite !elem_of_union; tauto).
        cbn [recommend_lines foldr]. fold (recommend_lines).
        by rewrite !str_app_assoc, <- app_assoc.
Qed.

(** C8. [recommend_similar_movies] looks the reference up with one
    nearest neighbour of "Title: " followed by the title, and answers
    that it could not find the title when the lookup is empty.
    Otherwise it queries the index with the text of the reference for
    ten neighbours and writes one line for each of the first five whose
    title is not the reference's and did not occur before: at most five
    recommendations, none with the reference's title, no title twice. *)
Theorem recommend_similar_movies_spec (vs : VectorStore)
    (movie_title : string) :
  let lookup := similarity_search vs ("Title: " +:+ movie_title) 1 in
  (∀ w, vectorstore w = Some vs →
     recommend_similar_movies movie_title w
     = (Ret (recommend_on vs movie_title).1, w))
  ∧ (lookup = [] →
       recommend_on vs movie_title
       = ("I couldn't find '" +:+ movie_title +:+ "'.", []))
  ∧ (∀ ref others,
       lookup = ref :: others →
       let similar := similarity_search vs (page_content ref) 10 in
       let output := (recommend_on vs movie_title).1 in
       let picked := (recommend_on vs movie_title).2 in
       picked = take 5 (dedup_by doc_title_opt {[ doc_title_opt ref ]} similar)
       ∧ length picked ≤ 5
       ∧ (∀ doc, doc ∈ picked →
            doc ∈ similar ∧ doc_title_opt doc ≠ doc_title_opt ref)
       ∧ NoDup (doc_title_opt <$> picked)
       ∧ output
         = "Movies similar to '" +:+ str_opt (doc_title_opt ref) +:+ "':"
           +:+ nl +:+ nl +:+ recommend_lines picked).
Proof.
  intros lookup. split; [|split].
  - intros w Hw. unfold recommend_similar_movies. by rewrite Hw.
  - intros Hnil. unfold recommend_on. fold lookup. by rewrite Hnil.
  - intros ref others Href similar output picked.
    assert (Hrun : recommend_on vs movie_title
              = ("Movies similar to '" +:+ str_opt (doc_title_opt ref) +:+ "':"
                 +:+ nl +:+ nl
                 +:+ recommend_lines
                       (take 5 (dedup_by doc_title_opt {[ doc_title_opt ref ]}
                                  similar)),
                 take 5 (dedup_by doc_title_opt {[ doc_title_opt ref ]}
                           similar))).
    { unfold recommend_on. fold lookup. rewrite Href. cbv zeta.
      rewrite recommend_loop_spec by lia. cbv zeta.
      fold (doc_title_opt ref). fold similar.
      rewrite (right_id_L ∅ (∪)).
      by rewrite !str_app_assoc. }
    subst output picked. rewrite Hrun. cbn [fst snd].
    split; [done|]. split; [rewrite length_take; lia|].
    split; [|split; [apply take_dedup_NoDup|done]].
    intros doc [Hin Hnew]%take_dedup_elem. split; [done|].
    intros Heq. apply Hnew. by apply elem_of_singleton.
Qed.

Lemma recommend_similar_movies_spec_witness :
  length (recommend_on Sample.store "Heat").2 ≤ 5
  ∧ (recommend_on
       {| similarity_search := λ _ _, [] |} "Heat").1
    = "I couldn't find 'Heat'.".
Proof.
  split.
  - destruct (recommend_similar_movies_spec Sample.store "Heat")
      as (_ & _ & H).
    destruct (H Sample.heat [] eq_refl) as (_ & Hlen & _). exact Hlen.
  - destruct (recommend_similar_movies_spec
                {| similarity_search := λ _ _, [] |} "Heat") as (_ & H & _).
    by rewrite (H eq_refl).
Defined.

(** ** C6: [generate_movie_quiz] *)

Lemma rev_app_rev_app (a cur t : string) :
  String.rev_app (String.rev_app a cur) t = String.rev_app cur (a +:+ t).
Proof.
  revert cur. induction a as [|c a IH]; intros cur; [done|].
  simpl. by rewrite IH.
Qed.







(** ** C9: [make_description] *)

Lemma has_metascore_iff (row : Movie) :
  has_metascore row ↔
  notna (metascore row) && cell_ne_str (metascore row) "Unknown" = true.
Proof.
  unfold has_metascore, notna, cell_ne_str.
  destruct (metascore row) as [[|q]|s|]; simpl.
  - split; [by intros (_ & ? & _)|done].
  - by split.
  - destruct (String.eqb_spec s "Unknown") as [->|Hs]; simpl.
    + split; [by intros (_ & _ & ?)|done].
    + split; [done|]. intros _. repeat split; congruence.
  - split; [by intros (? & _)|done].
Qed.

(** C9. The description of a record is its eight canonical lines, in
    the order Title, Year, Genre, Rating, Director, Cast, Duration,
    Certificate, joined by newlines; the MetaScore line follows them if
    and only if the metascore of the record is present and is not the
    text "Unknown". *)
Theorem make_description_spec `{FloatFormat} (row : Movie) :
  let canonical := join nl (description_lines row) in
  (has_metascore row →
     make_description row
     = canonical +:+ nl +:+ "MetaScore: " +:+ str_cell (metascore row)
       +:+ "/100")
  ∧ (¬ has_metascore row → make_description row = canonical)
  ∧ (make_description row ≠ canonical ↔ has_metascore row).
Proof.
  intros canonical.
  assert (Hbase : canonical =
            "Title: " +:+ title row +:+ nl +:+
            "Year: " +:+ match int_of_float (year row) with
                         | Some y => str_Z y
                         | None => "Unknown"
                         end +:+ nl +:+
            "Genre: " +:+ genre row +:+ nl +:+
            "Rating: " +:+ str_pyfloat (rating row) +:+ "/10" +:+ nl +:+
            "Director: " +:+ director row +:+ nl +:+
            "Cast: " +:+ cast row +:+ nl +:+
            "Duration: " +:+ match int_of_float (duration row) with
                             | Some m => str_Z m
                             | None => "Unknown"
                             end +:+ " minutes" +:+ nl +:+
            "Certificate: " +:+ certificates row).
  { subst canonical. unfold description_lines. cbn [join].
    by rewrite !str_app_assoc. }
  assert (Hyes : has_metascore row →
            make_description row
            = canonical +:+ nl +:+ "MetaScore: "
              +:+ str_cell (metascore row) +:+ "/100").
  { intros Hm%has_metascore_iff. unfold make_description.
    rewrite Hm, Hbase. by rewrite !str_app_assoc. }
  assert (Hno : ¬ has_metascore row → make_description row = canonical).
  { rewrite has_metascore_iff. intros Hm%not_true_is_false.
    unfold make_description. by rewrite Hm, Hbase. }
  split; [done|]. split; [done|]. split.
  - intros Hne. destruct (decide (notna (metascore row)
                          && cell_ne_str (metascore row) "Unknown" = true))
      as [Hm|Hm].
    + by apply has_metascore_iff.
    + destruct Hne. apply Hno. by rewrite has_metascore_iff.
  - intros Hm. rewrite (Hyes Hm). rewrite <- (str_app_nil_r canonical) at 2.
    intros Heq%(inj (String.app canonical)). done.
Qed.

Lemma make_description_spec_witness :
  @make_description Sample.format
    (Sample.movie "Up" "Pete Docter" "Edward Asner" 2009 (83 # 10))
  = join nl
      (@description_lines Sample.format
         (Sample.movie "Up" "Pete Docter" "Edward Asner" 2009 (83 # 10))).
Proof.
  apply (@make_description_spec Sample.format).
  intros (_ & Hnan & _). by apply Hnan.
Defined.

(** ** C7: [ingest_movies] *)

(** C7. When the cache file and the index both exist, [ingest_movies]
    leaves the disk as it is, so both artifacts keep their content; it
    prints that it found the cache and, once the cache is loaded, that
    the index exists: it reads no CSV, generates no description, saves
    no cache and builds no index. A second run does what the first
    did. *)
Theorem ingest_movies_idempotent `{FloatFormat} `{Platform} (d : Disk)
    (cache index : string) :
  cache_file d = Some cache →
  index_dir d = Some index →
  let found :=
    ["--- Starting Data Ingestion ---";
     "✅ Found cached data at " +:+ CACHE_PATH;
     "   Skipping CSV processing."] in
  let skipped :=
    ["✅ Vector Database already exists at '" +:+ INDEX_PATH +:+ "'.";
     "   Skipping vector creation."] in
  (ingest_movies d).1.1 = d
  ∧ cache_file (ingest_movies d).1.1 = Some cache
  ∧ index_dir (ingest_movies d).1.1 = Some index
  ∧ (∀ table, read_pickle cache = inr table →
       ingest_movies d = (d, found ++ skipped, Returned ()))
  ∧ (∀ e, read_pickle cache = inl e →
       ingest_movies d = (d, found, Raised e))
  ∧ ingest_movies (ingest_movies d).1.1 = ingest_movies d.
Proof.
  intros Hcache Hindex found skipped.
  assert (Hrun : ingest_movies d
            = match read_pickle cache with
              | inr _ => (d, found ++ skipped, Returned ())
              | inl e => (d, found, Raised e)
              end).
  { unfold ingest_movies. rewrite Hcache.
    destruct (read_pickle cache) as [e|table]; [done|].
    by rewrite Hindex. }
  assert (Hdisk : (ingest_movies d).1.1 = d).
  { rewrite Hrun. by destruct (read_pickle cache). }
  split; [done|]. rewrite Hdisk. repeat split; try done.
  - intros table Ht. by rewrite Hrun, Ht.
  - intros e He. by rewrite Hrun, He.
Qed.

Lemma ingest_movies_idempotent_witness :
  (@ingest_movies Sample.format Sample.platform Sample.disk).1.1 = Sample.disk.
Proof.
  apply (@ingest_movies_idempotent Sample.format Sample.platform Sample.disk
           "pickle" "index"); reflexivity.
Defined.

(** ** C2: the average over an empty subset *)

(** C2 (what the code does). In "average" mode, on a query whose
    filters select no row of the table, [get_movie_statistics] does not
    raise; it reports the average as "nan", the rendering of the
    undefined mean of no rating, over 0 movies. *)
Theorem average_of_empty_subset `{FloatFormat} (query : string) (w : World)
    (table : list Movie) :
  df w = Some table →
  contains "average" (lower query) = true →
  statistics_subset table query = [] →
  get_movie_statistics query w
  = (Ret "Average rating: nan/10 (based on 0 movies)", w).
Proof.
  intros Hdf Havg Hempty. unfold get_movie_statistics. rewrite Hdf.
  unfold statistics_on. rewrite Havg.
  unfold statistics_subset in Hempty. by rewrite Hempty.
Qed.

Lemma average_of_empty_subset_witness :
  @get_movie_statistics Sample.format "average rating of horror movies"
    Sample.world
  = (Ret "Average rating: nan/10 (based on 0 movies)", Sample.world).
Proof.
  apply (@average_of_empty_subset Sample.format _ _ Sample.table);
    reflexivity.
Defined.

(** ** The DataFrame objects *)

Lemma preserved_refl (p : Frames.Process) : Frames.preserved p p.
Proof. by repeat split. Qed.

Lemma preserved_trans (p q r : Frames.Process) :
  Frames.preserved p q → Frames.preserved q r → Frames.preserved p r.
Proof.
  intros (H1 & H2 & H3) (H1' & H2' & H3'). split; [|split].
  - intros l rows Hl. by apply H1', H1.
  - by rewrite H2', H2.
  - by rewrite H3', H3.
Qed.

(** A new object gets an address that was not in use and the rows it
    was made of; the objects that exist stay as they are. *)
Lemma new_frame_spec (rows : list Movie) (p : Frames.Process) :
  let l := (Frames.new_frame rows p).1 in
  let p' := (Frames.new_frame rows p).2 in
  Frames.frames p !! l = None
  ∧ Frames.frames p' !! l = Some rows
  ∧ Frames.preserved p p'
  ∧ Frames.np_random p' = Frames.np_random p
  ∧ Frames.py_random p' = Frames.py_random p.
Proof.
  intros l p'. subst l p'. unfold Frames.new_frame. cbn.
  assert (Hfresh : Frames.frames p !! fresh (dom (Frames.frames p)) = None).
  { apply not_elem_of_dom, is_fresh. }
  split; [done|]. split; [by rewrite lookup_insert_eq|].
  split; [|done]. split; [|done].
  intros l rows' Hl. cbn. rewrite lookup_insert_ne; [done|].
  intros <-. by rewrite Hfresh in Hl.
Qed.

Lemma rows_of_df (p : Frames.Process) (l : nat) (table : list Movie) :
  Frames.frames p !! l = Some table → Frames.rows_of l p = table.
Proof. intros H. unfold Frames.rows_of. by rewrite H. Qed.

Lemma getitem_spec (mask : Movie → bool) (l : nat) (p : Frames.Process) :
  Frames.rows_of (Frames.getitem mask l p).1 (Frames.getitem mask l p).2
  = List.filter mask (Frames.rows_of l p)
  ∧ Frames.preserved p (Frames.getitem mask l p).2
  ∧ Frames.np_random (Frames.getitem mask l p).2 = Frames.np_random p
  ∧ Frames.py_random (Frames.getitem mask l p).2 = Frames.py_random p.
Proof.
  destruct (new_frame_spec (List.filter mask (Frames.rows_of l p)) p)
    as (_ & ?%rows_of_df & ? & ? & ?). done.
Qed.

(** The run of [get_movie_statistics] on the objects: the answer is the
    one that the rows of the table give; the copy of the table is a new
    object; the objects that existed are preserved; and no generator is
    used. *)
Lemma get_movie_statistics_run `{FloatFormat} (query : string)
    (p : Frames.Process) (l : nat) (table : list Movie) :
  Frames.df p = Some l → Frames.frames p !! l = Some table →
  (Frames.get_movie_statistics query p).1 = statistics_on table query
  ∧ Frames.preserved p (Frames.get_movie_statistics query p).2
  ∧ (∃ l', Frames.frames p !! l' = None
           ∧ Frames.frames (Frames.get_movie_statistics query p).2 !! l'
             = Some table)
  ∧ Frames.np_random (Frames.get_movie_statistics query p).2
    = Frames.np_random p
  ∧ Frames.py_random (Frames.get_movie_statistics query p).2
    = Frames.py_random p.
Proof.
  intros Hdf Htable.
  unfold Frames.get_movie_statistics, statistics_on, Frames.copy.
  rewrite Hdf, (rows_of_df _ _ _ Htable).
  destruct (new_frame_spec table p) as (Hnew & Hcopy & Hpres & Hnp & Hpy).
  destruct (Frames.new_frame table p) as [s0 p0]. cbn [fst snd] in *.
  assert (Hend : ∀ p',
            Frames.preserved p0 p' →
            Frames.np_random p' = Frames.np_random p0 →
            Frames.py_random p' = Frames.py_random p0 →
            Frames.preserved p p'
            ∧ (∃ l', Frames.frames p !! l' = None
                     ∧ Frames.frames p' !! l' = Some table)
            ∧ Frames.np_random p' = Frames.np_random p
            ∧ Frames.py_random p' = Frames.py_random p).
  { intros p' Hp' Hn' Hy'. rewrite Hn', Hy'.
    split; [by eapply preserved_trans|]. split; [|done].
    exists s0. split; [done|]. by apply Hp'. }
  assert (Hrows : Frames.rows_of s0 p0 = table) by by apply rows_of_df.
  clear Hnew Hcopy Hpres Hnp Hpy.
  (* the genre filter *)
  set (step1 := match parse_genre (lower query) with
                | Some g => Frames.getitem _ s0 p0
                | None => (s0, p0)
                end).
  assert (H1 : Frames.rows_of step1.1 step1.2
               = filter_genre (parse_genre (lower query)) table
             ∧ Frames.preserved p0 step1.2
             ∧ Frames.np_random step1.2 = Frames.np_random p0
             ∧ Frames.py_random step1.2 = Frames.py_random p0).
  { subst step1. unfold filter_genre.
    destruct (parse_genre (lower query)) as [g|];
      [|split; [done|]; split; [apply preserved_refl|done]].
    match goal with |- context [Frames.getitem ?m s0 p0] =>
      destruct (getitem_spec m s0 p0) as (Hr & Hp & Hn1 & Hn2) end.
    by rewrite Hr, Hrows. }
  clearbody step1. destruct step1 as [s1 p1]. cbn [fst snd] in H1.
  destruct H1 as (Hrows1 & Hpres1 & Hnp1 & Hpy1).
  (* the year filter *)
  set (step2 := match parse_year_range (lower query) with
                | Some (lo, hi) => Frames.getitem _ s1 p1
                | None => (s1, p1)
                end).
  assert (H2 : Frames.rows_of step2.1 step2.2
               = filter_years (parse_year_range (lower query))
                   (filter_genre (parse_genre (lower query)) table)
             ∧ Frames.preserved p0 step2.2
             ∧ Frames.np_random step2.2 = Frames.np_random p0
             ∧ Frames.py_random step2.2 = Frames.py_random p0).
  { subst step2. unfold filter_years.
    destruct (parse_year_range (lower query)) as [[lo hi]|]; [|done].
    match goal with |- context [Frames.getitem ?m s1 p1] =>
      destruct (getitem_spec m s1 p1) as (Hr & Hp & Hn1 & Hn2) end.
    rewrite Hr, Hrows1, Hn1, Hn2.
    split; [done|]. split; [by eapply preserved_trans|done]. }
  clearbody step2. destruct step2 as [s2 p2]. cbn [fst snd] in H2.
  destruct H2 as (Hrows2 & Hpres2 & Hnp2 & Hpy2).
  destruct (contains "average" (lower query)).
  { split; [cbn [fst]; by rewrite Hrows2|by apply Hend]. }
  destruct (existsb _ _).
  - unfold Frames.nlargest, Frames.columns.
    destruct (new_frame_spec (nlargest 5 (Frames.rows_of s2 p2)) p2)
      as (_ & Hr3%rows_of_df & Hp3 & Hn3 & Hy3).
    destruct (Frames.new_frame (nlargest 5 (Frames.rows_of s2 p2)) p2)
      as [s3 p3].
    cbn [fst snd] in *.
    destruct (new_frame_spec (Frames.rows_of s3 p3) p3)
      as (_ & Hr4%rows_of_df & Hp4 & Hn4 & Hy4).
    destruct (Frames.new_frame (Frames.rows_of s3 p3) p3) as [s4 p4].
    cbn [fst snd] in *.
    split; [by rewrite Hr4, Hr3, Hrows2|].
    apply Hend; [|by rewrite Hn4, Hn3|by rewrite Hy4, Hy3].
    eapply preserved_trans; [|exact Hp4].
    eapply preserved_trans; [|exact Hp3]. done.
  - split; [cbn [fst]; by rewrite Hrows2|by apply Hend].
Qed.

(** The run of [generate_movie_quiz] on the objects: the answer and the
    generators are those that the rows of the table and the draws give,
    and the objects that existed are preserved. *)
Lemma generate_movie_quiz_run (query : string) (p : Frames.Process)
    (l : nat) (table : list Movie) :
  Frames.df p = Some l → Frames.frames p !! l = Some table →
  let w := {| df := Some table;
              vectorstore := Frames.vectorstore p;
              np_random := Frames.np_random p;
              py_random := Frames.py_random p |} in
  (Frames.generate_movie_quiz query p).1 = (generate_movie_quiz query w).1
  ∧ Frames.preserved p (Frames.generate_movie_quiz query p).2
  ∧ Frames.np_random (Frames.generate_movie_quiz query p).2
    = np_random (generate_movie_quiz query w).2
  ∧ Frames.py_random (Frames.generate_movie_quiz query p).2
    = py_random (generate_movie_quiz query w).2.
Proof.
  intros Hdf Htable w. subst w.
  unfold Frames.generate_movie_quiz, generate_movie_quiz. cbn [df].
  rewrite Hdf.
  match goal with |- context [Frames.getitem ?m l p] =>
    destruct (getitem_spec m l p) as (Hrows & Hpres & Hnp & Hpy);
    destruct (Frames.getitem m l p) as [s0 p0] end.
  cbn [fst snd] in *. rewrite (rows_of_df _ _ _ Htable) in Hrows.
  fold (quiz_pool table) in Hrows. rewrite Hrows.
  destruct (length (quiz_pool table) <? 5) eqn:Hlen; [done|].
  apply Nat.ltb_ge in Hlen.
  unfold Frames.sample, sample_one, Frames.choice, choice_bool, draw.
  cbn [np_random py_random]. rewrite Hrows, Hnp.
  set (i := stream (Frames.np_random p) (cursor (Frames.np_random p)) mod _).
  destruct (lookup_lt_is_Some_2 (quiz_pool table) i) as [movie Hmovie].
  { apply Nat.mod_upper_bound. lia. }
  rewrite Hmovie.
  match goal with |- context [Frames.new_frame ?r ?q] =>
    destruct (new_frame_spec r q) as (_ & Hr1%rows_of_df & Hp1 & Hn1 & Hy1);
    destruct (Frames.new_frame r q) as [s1 p1] end.
  cbn [fst snd] in *. rewrite Hr1. cbn [option_list lookup list_lookup].
  cbn in Hn1, Hy1, Hp1. rewrite Hy1, Hpy.
  assert (Frames.preserved p p1) as Hpres1.
  { eapply preserved_trans; [exact Hpres|].
    destruct Hp1 as (? & ? & ?). by repeat split. }
  destruct (default false _); cbn; by rewrite Hn1.
Qed.

(** With the generators in suitable states, the quiz asks either
    question about any record of the pool. *)
Lemma generate_movie_quiz_reaches (query : string) (table : list Movie)
    (vs : option VectorStore) (movie : Movie) (coin : nat) :
  5 ≤ length (quiz_pool table) → movie ∈ quiz_pool table →
  ∃ np,
    (generate_movie_quiz query
       {| df := Some table; vectorstore := vs; np_random := np;
          py_random := {| stream := λ _, coin; cursor := 0 |} |}).1
    = Ret (if default false ([true; false] !! (coin mod 2))
           then director_response movie else actor_response movie).
Proof.
  intros Hlen [i Hi]%list_elem_of_lookup_1.
  exists {| stream := λ _, i; cursor := 0 |}.
  unfold generate_movie_quiz. cbn [df].
  destruct (length (quiz_pool table) <? 5) eqn:E;
    [apply Nat.ltb_lt in E; lia|].
  unfold sample_one, choice_bool, draw. cbn [stream cursor np_random py_random].
  rewrite Nat.mod_small by (by eapply lookup_lt_Some).
  rewrite Hi. by destruct (default false _).
Qed.

(** ** C3: what the answers of the tools depend on *)

(** C3, as the claim states it, fails for [generate_movie_quiz]: a
    second call, made with the same table and the same index, gives
    another answer than the first. *)
Lemma generate_movie_quiz_counterexample :
  let first := generate_movie_quiz "quiz me" Sample.world in
  let second := generate_movie_quiz "quiz me" first.2 in
  df first.2 = df Sample.world
  ∧ vectorstore first.2 = vectorstore Sample.world
  ∧ first.1 ≠ second.1.
Proof.
  split; [reflexivity|]. split; [reflexivity|].
  vm_compute. discriminate.
Qed.

(** C3 (amended). [get_movie_statistics] answers by its input and the
    rows of the cached table, wherever the table is stored and whatever
    else the process holds: it works on a copy, a new object, every
    DataFrame that existed before the call has the same rows after it,
    the two globals still refer to what they referred to, no random
    generator is used, and a second call, made in the state that the
    first one left, returns the same answer. [generate_movie_quiz]
    preserves the DataFrames and the globals as well, but it answers by
    the rows of the table and the next draws of the two generators,
    whatever its input: with the generators in suitable states it asks
    either question about any record of the pool. [search_movies] and
    [recommend_similar_movies] answer by their input and the index, and
    leave the state of the process as it is. *)
Theorem tools_dependencies `{FloatFormat} :
  (∀ query p l table,
     Frames.df p = Some l → Frames.frames p !! l = Some table →
     let run := Frames.get_movie_statistics query p in
     run.1 = statistics_on table query
     ∧ Frames.preserved p run.2
     ∧ (∃ l', Frames.frames p !! l' = None
              ∧ Frames.frames run.2 !! l' = Some table)
     ∧ Frames.np_random run.2 = Frames.np_random p
     ∧ Frames.py_random run.2 = Frames.py_random p
     ∧ (Frames.get_movie_statistics query run.2).1 = run.1)
  ∧ (∀ query p p' l l' table,
       Frames.df p = Some l → Frames.frames p !! l = Some table →
       Frames.df p' = Some l' → Frames.frames p' !! l' = Some table →
       (Frames.get_movie_statistics query p).1
       = (Frames.get_movie_statistics query p').1)
  ∧ (∀ query p l table,
       Frames.df p = Some l → Frames.frames p !! l = Some table →
       Frames.preserved p (Frames.generate_movie_quiz query p).2)
  ∧ (∀ query query' p p' l l' table,
       Frames.df p = Some l → Frames.frames p !! l = Some table →
       Frames.df p' = Some l' → Frames.frames p' !! l' = Some table →
       next_draw (Frames.np_random p) = next_draw (Frames.np_random p') →
       next_draw (Frames.py_random p) = next_draw (Frames.py_random p') →
       (Frames.generate_movie_quiz query p).1
       = (Frames.generate_movie_quiz query' p').1)
  ∧ (∀ query p l table movie,
       Frames.df p = Some l → Frames.frames p !! l = Some table →
       5 ≤ length (quiz_pool table) → movie ∈ quiz_pool table →
       (∃ np py,
          (Frames.generate_movie_quiz query (Frames.seeded np py p)).1
          = Ret (director_response movie))
       ∧ (∃ np py,
            (Frames.generate_movie_quiz query (Frames.seeded np py p)).1
            = Ret (actor_response movie)))
  ∧ (∀ query w w',
       vectorstore w = vectorstore w' →
       (search_movies query w).1 = (search_movies query w').1
       ∧ (recommend_similar_movies query w).1
         = (recommend_similar_movies query w').1)
  ∧ (∀ query w,
       (search_movies query w).2 = w
       ∧ (recommend_similar_movies query w).2 = w).
Proof.
  assert (Hquiz : ∀ query query' w w',
            df w = df w' →
            next_draw (np_random w) = next_draw (np_random w') →
            next_draw (py_random w) = next_draw (py_random w') →
            (generate_movie_quiz query w).1 = (generate_movie_quiz query' w').1).
  { intros q q' w w' Hdf Hnp Hpy. unfold generate_movie_quiz.
    rewrite <- Hdf. destruct (df w) as [table|]; [|done].
    destruct (length (quiz_pool table) <? 5); [done|].
    unfold sample_one, choice_bool, draw. unfold next_draw in Hnp, Hpy.
    rewrite <- Hnp, <- Hpy.
    destruct (quiz_pool table !! _) as [movie|]; [|done].
    by destruct (default false _). }
  split; [|split; [|split; [|split; [|split; [|split]]]]].
  - intros query p l table Hdf Htable run. subst run.
    destruct (get_movie_statistics_run query p l table Hdf Htable)
      as (Hans & Hpres & Hnew & Hnp & Hpy).
    repeat (split; [done|]).
    destruct Hpres as (Hframes & Hdf' & _).
    destruct (get_movie_statistics_run query
                (Frames.get_movie_statistics query p).2 l table)
      as (Hans' & _); [by rewrite Hdf'|by apply Hframes|].
    by rewrite Hans', Hans.
  - intros query p p' l l' table Hdf Htable Hdf' Htable'.
    destruct (get_movie_statistics_run query p l table Hdf Htable)
      as (-> & _).
    by destruct (get_movie_statistics_run query p' l' table Hdf' Htable')
      as (-> & _).
  - intros query p l table Hdf Htable.
    by destruct (generate_movie_quiz_run query p l table Hdf Htable)
      as (_ & ? & _).
  - intros query query' p p' l l' table Hdf Htable Hdf' Htable' Hnp Hpy.
    destruct (generate_movie_quiz_run query p l table Hdf Htable)
      as (-> & _).
    destruct (generate_movie_quiz_run query' p' l' table Hdf' Htable')
      as (-> & _).
    by apply Hquiz.
  - intros query p l table movie Hdf Htable Hlen Hmovie. split.
    + destruct (generate_movie_quiz_reaches query table
                  (Frames.vectorstore p) movie 0 Hlen Hmovie) as [np Hnp].
      exists np, {| stream := λ _, 0; cursor := 0 |}.
      by destruct (generate_movie_quiz_run query
                     (Frames.seeded np {| stream := λ _, 0; cursor := 0 |} p)
                     l table Hdf Htable) as (-> & _).
    + destruct (generate_movie_quiz_reaches query table
                  (Frames.vectorstore p) movie 1 Hlen Hmovie) as [np Hnp].
      exists np, {| stream := λ _, 1; cursor := 0 |}.
      by destruct (generate_movie_quiz_run query
                     (Frames.seeded np {| stream := λ _, 1; cursor := 0 |} p)
                     l table Hdf Htable) as (-> & _).
  - intros q w w' Hvs. unfold search_movies, recommend_similar_movies.
    rewrite <- Hvs. destruct (vectorstore w) as [vs|]; [|done].
    split; [|done]. by destruct (search_hits vs q).
  - intros q w. split.
    + unfold search_movies. destruct (vectorstore w); [|done].
      by destruct (search_hits _ _).
    + unfold recommend_similar_movies. by destruct (vectorstore w).
Qed.

Lemma tools_dependencies_witness :
  let run :=
    @Frames.get_movie_statistics Sample.format "top rated" sample_process in
  run.1 = @statistics_on Sample.format Sample.table "top rated"
  ∧ Frames.preserved sample_process run.2
  ∧ (@Frames.get_movie_statistics Sample.format "top rated" run.2).1 = run.1.
Proof.
  destruct (@tools_dependencies Sample.format) as (H & _).
  destruct (H "top rated" sample_process 7 Sample.table eq_refl eq_refl)
    as (H1 & H2 & _ & _ & _ & H6).
  split; [exact H1|]. split; [exact H2|exact H6].
Defined.

(** * Further properties of the code *)

(** ** [parse_year_range]: the shape of the result *)

Lemma int_go_bound (s : string) (acc : Z) :
  all_chars is_digit s = true → (0 ≤ acc)%Z →
  (0 ≤ int_go acc s < (acc + 1) * 10 ^ Z.of_nat (strlen s))%Z.
Proof.
  revert acc. induction s as [|c s IH]; intros acc Hall Hacc.
  - simpl. lia.
  - cbn [all_chars] in Hall. apply andb_prop in Hall as [Hc%digit_val_range Hs].
    cbn [int_go strlen]. specialize (IH (10 * acc + digit_val c)%Z Hs).
    rewrite Nat2Z.inj_succ, Z.pow_succ_r by lia.
    assert (0 < 10 ^ Z.of_nat (strlen s))%Z by (apply Z.pow_pos_nonneg; lia).
    nia.
Qed.

Lemma int_bound (s : string) :
  all_chars is_digit s = true → strlen s ≤ 4 → (0 ≤ int s ≤ 9999)%Z.
Proof.
  intros Hall Hlen. unfold int.
  pose proof (int_go_bound s 0 Hall ltac:(lia)) as Hb.
  assert (10 ^ Z.of_nat (strlen s) ≤ 10 ^ 4)%Z
    by (apply Z.pow_le_mono_r; lia).
  lia.
Qed.

(** What [parse_year_range] returns on a decade match and on a year
    match of the searches. *)
Lemma parse_year_range_decade (s digits : string) :
  re_search decade_at s = Some digits →
  ∃ lo, parse_year_range s = Some (lo, lo + 9)%Z ∧ (0 ≤ lo ≤ 9999)%Z.
Proof.
  intros Hd. unfold parse_year_range. rewrite Hd.
  apply search_from_Some in Hd as (before & after & -> & Hat).
  apply decade_at_Some in Hat
    as (sp & ap & rest & -> & Hlen & Hall & _).
  eexists. split; [reflexivity|].
  destruct (strlen digits =? 2) eqn:E.
  - apply Nat.eqb_eq in E. destruct digits as [|c1 [|c2 [|? ?]]]; try done.
    change ("19" +:+ String c1 (String c2 EmptyString))
      with (String "1" (String "9" (String c1 (String c2 EmptyString)))).
    rewrite int_century.
    cbn [all_chars] in Hall.
    apply andb_prop in Hall as [H1%digit_val_range
                                  [H2%digit_val_range _]%andb_prop].
    change (digit_val "1") with 1%Z. change (digit_val "9") with 9%Z. lia.
  - apply int_bound; [done|lia].
Qed.

Lemma parse_year_range_year (s y : string) :
  re_search decade_at s = None →
  re_search year_at s = Some y →
  ∃ n, parse_year_range s = Some (n, n) ∧ (1900 ≤ n ≤ 2099)%Z.
Proof.
  intros Hd Hy. unfold parse_year_range. rewrite Hd, Hy.
  eexists. split; [reflexivity|].
  apply search_from_Some in Hy as (before & after & -> & Hat).
  apply year_at_Some in Hat
    as (century & dd & rest & -> & -> & Hc & Hlen & Hall & _).
  destruct dd as [|c1 [|c2 [|? ?]]]; try done.
  cbn [all_chars] in Hall.
  apply andb_prop in Hall as [H1%digit_val_range
                                [H2%digit_val_range _]%andb_prop].
  destruct Hc as [-> | ->].
  - change ("19" +:+ String c1 (String c2 EmptyString))
      with (String "1" (String "9" (String c1 (String c2 EmptyString)))).
    rewrite int_century.
    change (digit_val "1") with 1%Z. change (digit_val "9") with 9%Z. lia.
  - change ("20" +:+ String c1 (String c2 EmptyString))
      with (String "2" (String "0" (String c1 (String c2 EmptyString)))).
    rewrite int_century.
    change (digit_val "2") with 2%Z. change (digit_val "0") with 0%Z. lia.
Qed.

(** X1. On an ASCII text, a decade token anywhere in the text decides
    the result, also when a four-digit year stands before it: the range
    is ten years long. Without a decade token, a year token gives the
    range of that one year, between 1900 and 2099. Whatever is returned
    is one of the two. *)
Theorem parse_year_range_shape (s : string) :
  ascii_text s = true →
  (decade_token s →
     ∃ lo, parse_year_range s = Some (lo, lo + 9)%Z ∧ (0 ≤ lo ≤ 9999)%Z)
  ∧ (¬ decade_token s → year_token s →
       ∃ y, parse_year_range s = Some (y, y) ∧ (1900 ≤ y ≤ 2099)%Z)
  ∧ (∀ lo hi,
       parse_year_range s = Some (lo, hi) →
       (decade_token s ∧ hi = (lo + 9)%Z ∧ (0 ≤ lo ≤ 9999)%Z)
       ∨ (¬ decade_token s ∧ year_token s ∧ hi = lo
          ∧ (1900 ≤ lo ≤ 2099)%Z)).
Proof.
  intros _. split; [|split].
  - intros [d Hd]%decade_search_complete. by eapply parse_year_range_decade.
  - intros Hno [y Hy]%year_search_complete.
    eapply parse_year_range_year; [|done].
    rewrite decade_token_iff in Hno.
    destruct (re_search decade_at s); [|done]. by destruct Hno.
  - intros lo hi Hret.
    destruct (re_search decade_at s) as [d|] eqn:Hd.
    + left. destruct (parse_year_range_decade _ _ Hd) as (lo' & Heq & Hb).
      rewrite Heq in Hret. injection Hret as <- <-.
      split; [by eapply decade_search_sound|done].
    + right. destruct (re_search year_at s) as [y|] eqn:Hy.
      * destruct (parse_year_range_year _ _ Hd Hy) as (n & Heq & Hb).
        rewrite Heq in Hret. injection Hret as <- <-.
        split; [by rewrite decade_token_iff, Hd; intros H; apply H|].
        split; [by eapply year_search_sound|done].
      * unfold parse_year_range in Hret. by rewrite Hd, Hy in Hret.
Qed.

Lemma parse_year_range_shape_witness :
  ∃ lo, parse_year_range "2015 and 90s" = Some (lo, lo + 9)%Z
        ∧ (0 ≤ lo ≤ 9999)%Z.
Proof.
  apply (parse_year_range_shape "2015 and 90s"); [reflexivity|].
  apply decade_token_iff. discriminate.
Defined.

(** ** [parse_year_range]: the spellings of a decade *)

(** X2. A decade may be written with a whitespace character or an
    apostrophe (or both, in this order) before the "s": on an ASCII
    text, between word boundaries and with no decade token starting
    before it, it is parsed like the plain spelling. Two digits are read
    as a year of the twentieth century; three or four digits are taken
    as the first year as they stand. *)
Theorem parse_year_range_spellings (before digits sp ap after : string) :
  let text := before +:+ digits +:+ sp +:+ ap +:+ "s" +:+ after in
  ascii_text text = true →
  no_decade_token_before (strlen before) text →
  not_word_end before →
  all_chars is_digit digits = true →
  (2 ≤ strlen digits ≤ 4)%nat →
  (sp = EmptyString ∨ ∃ c, is_space c = true ∧ sp = String c EmptyString) →
  (ap = EmptyString ∨ ap = "'") →
  not_word_start after →
  let first_year :=
    if (strlen digits =? 2)%nat then (1900 + int digits)%Z else int digits in
  parse_year_range text = Some (first_year, first_year + 9)%Z.
Proof.
  intros text _ Hfirst Hend Hall Hlen Hsp Hap Hstart first_year.
  assert (Hfound : re_search decade_at text = Some digits).
  { apply first_decade_search.
    exists before, (digits +:+ sp +:+ ap +:+ "s" +:+ after).
    split; [done|]. split; [|done]. by exists sp, ap, after. }
  unfold parse_year_range. rewrite Hfound. subst first_year.
  destruct (strlen digits =? 2) eqn:E; [|done].
  apply Nat.eqb_eq in E. destruct digits as [|c1 [|c2 [|? ?]]]; try done.
  change ("19" +:+ String c1 (String c2 EmptyString))
    with (String "1" (String "9" (String c1 (String c2 EmptyString)))).
  rewrite int_century, int_two.
  change (digit_val "1") with 1%Z. change (digit_val "9") with 9%Z.
  do 2 f_equal; lia.
Qed.

Lemma parse_year_range_spellings_witness :
  parse_year_range ("top 10 of the " +:+ "80" +:+ " " +:+ "'" +:+ "s"
                    +:+ " and later")
  = Some (1980, 1989)%Z
  ∧ parse_year_range ("the " +:+ "1995" +:+ EmptyString +:+ EmptyString
                      +:+ "s" +:+ EmptyString)
    = Some (1995, 2004)%Z.
Proof.
  split.
  - apply (parse_year_range_spellings "top 10 of the " "80" " " "'"
             " and later"); try reflexivity.
    + apply no_decade_token_before_check. reflexivity.
    + simpl. lia.
    + right. by exists " "%char.
    + by right.
  - apply (parse_year_range_spellings "the " "1995" EmptyString EmptyString
             EmptyString); try reflexivity.
    + apply no_decade_token_before_check. reflexivity.
    + simpl. lia.
    + by left.
    + by left.
Defined.

(** ** [parse_genre]: the vocabulary and blank texts *)

Lemma first_some_elem {A : Type} (P : A → bool) (l : list A) (y : A) :
  first_some (λ x, if P x then Some x else None) l = Some y → y ∈ l.
Proof.
  intros (x & Hx & Hf)%first_some_Some.
  destruct (P x); [|done]. by injection Hf as <-.
Qed.

(** X3. Whatever the similarity measure, a genre that [parse_genre]
    returns is one of the seventeen genres of its vocabulary. *)
Theorem parse_genre_in_vocabulary (ratio : string → string → Q)
    (query genre : string) :
  parse_genre_with ratio query = Some genre → genre ∈ genres.
Proof.
  unfold parse_genre_with.
  destruct (contains "scifi" query).
  { intros [= <-]. unfold genres. set_unfold. tauto. }
  destruct (first_some _ genres) as [g|] eqn:Hexact.
  { intros [= <-]. by apply first_some_elem in Hexact. }
  intros (word & _ & Hw)%first_some_Some.
  by apply first_some_elem in Hw.
Qed.

Lemma parse_genre_in_vocabulary_witness : "horror" ∈ genres.
Proof.
  apply (parse_genre_in_vocabulary fuzz_ratio "horor movie"). reflexivity.
Defined.

(** A text that contains a pattern has the characters of the pattern. *)
Lemma contains_all_chars (P : ascii → bool) (p s : string) :
  contains p s = true → all_chars P s = true → all_chars P p = true.
Proof.
  intros (before & after & ->)%contains_iff. rewrite !all_chars_app.
  by intros [_ [? _]%andb_prop]%andb_prop.
Qed.

Lemma split_ws_blank (s : string) :
  all_chars is_space s = true → split_ws s = [].
Proof.
  unfold split_ws. induction s as [|c s IH]; [done|].
  cbn [all_chars split_ws_go]. intros [-> Hs]%andb_prop. by apply IH.
Qed.

(** X4. On a text made of whitespace only, the empty text included,
    neither a genre nor a year range is parsed. *)
Theorem blank_query_parses_to_nothing (ratio : string → string → Q)
    (query : string) :
  all_chars is_space query = true →
  parse_genre_with ratio query = None ∧ parse_year_range query = None.
Proof.
  intros Hblank. split.
  - assert (Hnot : ∀ p, all_chars is_space p = false →
              contains p (" " +:+ query +:+ " ") = false).
    { intros p Hp. apply not_true_is_false. intros Hc.
      apply (contains_all_chars is_space) in Hc; [congruence|].
      rewrite !all_chars_app, Hblank. reflexivity. }
    unfold parse_genre_with.
    assert (contains "scifi" query = false) as ->.
    { apply not_true_is_false. intros Hc.
      by apply (contains_all_chars is_space) in Hc. }
    rewrite first_some_None.
    + by rewrite split_ws_blank.
    + intros g Hg. rewrite Hnot; [done|].
      unfold genres in Hg.
      repeat (apply elem_of_cons in Hg as [-> | Hg]; [reflexivity|]).
      by apply elem_of_nil in Hg.
  - assert (no_digit query = true) as Hnd.
    { clear ratio. induction query as [|c q IH]; [done|].
      cbn [all_chars] in Hblank. apply andb_prop in Hblank as [Hc Hq].
      unfold no_digit. cbn [all_chars].
      rewrite (is_space_not_digit c Hc). by apply IH. }
    unfold parse_year_range, re_search.
    rewrite (search_from_None decade_at (λ c, negb (is_digit c)));
      [|apply decade_at_not_digit|apply decade_at_nil|done].
    by rewrite (search_from_None year_at (λ c, negb (is_digit c)));
      [|apply year_at_not_digit|apply year_at_nil|done].
Qed.

Lemma blank_query_parses_to_nothing_witness :
  parse_genre_with fuzz_ratio "   " = None ∧ parse_year_range "   " = None.
Proof. apply blank_query_parses_to_nothing. reflexivity. Defined.

(** ** [fuzz.ratio] and the threshold of [parse_genre] *)

Lemma lcs_cons (x y : ascii) (a b : string) :
  lcs (String x a) (String y b)
  = if Ascii.eqb x y then S (lcs a b)
    else Nat.max (lcs a (String y b)) (lcs (String x a) b).
Proof. reflexivity. Qed.

Lemma lcs_nil_r (a : string) : lcs a EmptyString = 0.
Proof. by destruct a. Qed.

Lemma lcs_le (a b : string) : lcs a b ≤ strlen a ∧ lcs a b ≤ strlen b.
Proof.
  revert b. induction a as [|x a IHa]; intros b; [simpl; lia|].
  induction b as [|y b IHb]; [rewrite lcs_nil_r; simpl; lia|].
  rewrite lcs_cons. cbn [strlen].
  destruct (Ascii.eqb x y).
  - destruct (IHa b). lia.
  - destruct (IHa (String y b)) as [H1 H2]. cbn [strlen] in *. lia.
Qed.

Lemma lcs_refl (a : string) : lcs a a = strlen a.
Proof.
  induction a as [|x a IH]; [done|].
  rewrite lcs_cons, Ascii.eqb_refl. simpl. by rewrite IH.
Qed.

(** The ratio of two texts that are not both empty is 200 times the
    length of a longest common subsequence over the sum of the
    lengths. *)
Lemma fuzz_ratio_eq (a b : string) :
  0 < strlen a + strlen b →
  (fuzz_ratio a b * inject_Z (Z.of_nat (strlen a + strlen b))
   == inject_Z (200 * Z.of_nat (lcs a b)))%Q.
Proof.
  intros Hm. unfold fuzz_ratio, indel_distance.
  destruct (lcs_le a b) as [Ha Hb].
  destruct (strlen a + strlen b =? 0) eqn:E; [apply Nat.eqb_eq in E; lia|].
  set (m := strlen a + strlen b) in *.
  assert (Hd : (inject_Z (Z.of_nat (m - 2 * lcs a b))
                == inject_Z (Z.of_nat m)
                   - inject_Z (2 * Z.of_nat (lcs a b)))%Q).
  { rewrite Nat2Z.inj_sub by lia. rewrite Nat2Z.inj_mul.
    unfold Qeq, Qminus, Qplus, Qopp, inject_Z. simpl. lia. }
  rewrite Hd.
  assert (¬ (inject_Z (Z.of_nat m) == 0)%Q).
  { unfold Qeq, inject_Z. simpl. lia. }
  replace (200 * Z.of_nat (lcs a b))%Z
    with (100 * (2 * Z.of_nat (lcs a b)))%Z by lia.
  rewrite (inject_Z_mult 100). field. done.
Qed.

(** The ratio exceeds 80 exactly when five times the length of a
    longest common subsequence exceeds twice the sum of the lengths. *)
Lemma fuzz_above_80 (a b : string) :
  0 < strlen a + strlen b →
  Qgtb (fuzz_ratio a b) 80 = true
  ↔ 2 * (strlen a + strlen b) < 5 * lcs a b.
Proof.
  intros Hm. pose proof (fuzz_ratio_eq a b Hm) as Heq.
  set (M := inject_Z (Z.of_nat (strlen a + strlen b))) in *.
  assert (HM : (0 < M)%Q).
  { unfold M, Qlt, inject_Z. simpl. lia. }
  rewrite Qgtb_true, <- (Qmult_lt_r _ _ M HM), Heq.
  unfold M. change 80%Q with (inject_Z 80).
  rewrite <- inject_Z_mult, <- Zlt_Qlt. lia.
Qed.

Lemma first_some_found {A B : Type} (f : A → option B) (l : list A) (x : A) :
  x ∈ l → f x ≠ None → first_some f l ≠ None.
Proof.
  induction l as [|a l IH]; [by intros ?%elem_of_nil|].
  intros [->|Hin]%elem_of_cons Hx; simpl.
  - by destruct (f a).
  - destruct (f a); [done|]. by apply IH.
Qed.

(** Every genre of the vocabulary has five characters or more. *)
Lemma genres_long (genre : string) : genre ∈ genres → 5 ≤ strlen genre.
Proof.
  intros Hgenre. unfold genres in Hgenre.
  repeat (apply elem_of_cons in Hgenre as [-> | Hgenre]; [simpl; lia|]).
  by apply elem_of_nil in Hgenre.
Qed.

(** A longest common subsequence does not shrink when the first text
    gets one more character in front, and grows by one at most when the
    second does. *)
Lemma lcs_cons_bounds (n : nat) (a y : string) :
  strlen a + strlen y ≤ n →
  (∀ c, lcs a y ≤ lcs (String c a) y)
  ∧ (∀ d, lcs a (String d y) ≤ S (lcs a y)).
Proof.
  revert a y. induction n as [|n IH]; intros a y Hn.
  { destruct a, y; simpl in Hn; try lia. split; intros; simpl; lia. }
  split.
  - intros c. destruct y as [|d y']; [by rewrite !lcs_nil_r|].
    rewrite (lcs_cons c d). destruct (Ascii.eqb c d).
    + apply (IH a y'). simpl in Hn. lia.
    + lia.
  - intros d. destruct a as [|x a']; [simpl; lia|].
    rewrite (lcs_cons x d).
    destruct (IH a' y) as [Hmono Hstep]; [simpl in Hn; lia|].
    specialize (Hmono x). specialize (Hstep d).
    destruct (Ascii.eqb x d); lia.
Qed.

Lemma lcs_app_prefix (a x y : string) :
  strlen a + lcs x y ≤ lcs (a +:+ x) (a +:+ y).
Proof.
  induction a as [|c a IH]; [done|].
  rewrite !str_app_cons, lcs_cons, Ascii.eqb_refl. simpl. lia.
Qed.

(** A text with one character dropped is a common subsequence. *)
Lemma lcs_dropped (a : string) (c : ascii) (b : string) :
  lcs (a +:+ String c b) (a +:+ b) = strlen (a +:+ b).
Proof.
  apply Nat.le_antisymm; [apply lcs_le|].
  rewrite strlen_app. etrans; [|apply lcs_app_prefix].
  apply Nat.add_le_mono_l. rewrite <- (lcs_refl b) at 1.
  by apply (lcs_cons_bounds (strlen b + strlen b)).
Qed.

(** X5. The fuzzy step of [parse_genre] on an ASCII text. A genre is
    returned only for the alias, for an exact word, or for a token that
    has with the genre a common subsequence longer than two fifths of
    the two lengths together (a similarity above 80); and whenever some
    token and some genre of the vocabulary have such a subsequence, a
    genre is returned. In particular a token that is a genre of the
    vocabulary with one character dropped is recognised. *)
Theorem parse_genre_fuzzy_threshold (query : string) :
  ascii_text query = true →
  (∀ genre, parse_genre query = Some genre →
     (genre = "sci-fi" ∧ contains "scifi" query = true)
     ∨ exact_word genre query = true
     ∨ ∃ word, word ∈ split_ws query
               ∧ 2 * (strlen genre + strlen word) < 5 * lcs genre word)
  ∧ (∀ word genre,
       word ∈ split_ws query → genre ∈ genres →
       2 * (strlen genre + strlen word) < 5 * lcs genre word →
       ∃ found, parse_genre query = Some found)
  ∧ (∀ before c after,
       before +:+ String c after ∈ genres →
       before +:+ after ∈ split_ws query →
       ∃ found, parse_genre query = Some found).
Proof.
  intros _.
  assert (Hsome : ∀ word genre,
            word ∈ split_ws query → genre ∈ genres →
            2 * (strlen genre + strlen word) < 5 * lcs genre word →
            ∃ found, parse_genre query = Some found).
  { intros word genre Hword Hgenre Hlcs.
    unfold parse_genre, parse_genre_with.
    destruct (contains "scifi" query); [by eexists|].
    destruct (first_some _ genres) as [g|]; [by exists g|].
    destruct (first_some _ (split_ws query)) as [g|] eqn:E; [by exists g|].
    exfalso. revert E. apply (first_some_found _ _ word Hword).
    apply (first_some_found _ _ genre Hgenre).
    apply genres_long in Hgenre.
    by rewrite (proj2 (fuzz_above_80 genre word ltac:(lia)) Hlcs). }
  split; [|split; [done|]].
  - intros genre. unfold parse_genre, parse_genre_with.
    destruct (contains "scifi" query) eqn:Halias.
    { intros [= <-]. by left. }
    destruct (first_some _ genres) as [g|] eqn:Hexact.
    { intros [= ->]. right. left.
      apply first_some_Some in Hexact as (x & _ & Hx).
      fold (exact_word x query) in Hx.
      destruct (exact_word x query) eqn:E; [|done]. by injection Hx as ->. }
    intros (word & Hword & Hinner)%first_some_Some.
    apply first_some_Some in Hinner as (g & Hg & Hratio).
    destruct (Qgtb (fuzz_ratio g word) 80) eqn:E; [|done].
    injection Hratio as ->. right. right. exists word. split; [done|].
    apply genres_long in Hg. apply fuzz_above_80; [lia|done].
  - intros before c after Hgenre Hword.
    apply (Hsome _ _ Hword Hgenre).
    rewrite lcs_dropped. apply genres_long in Hgenre.
    rewrite !strlen_app in *. cbn [strlen] in *. lia.
Qed.

Lemma parse_genre_fuzzy_threshold_witness :
  ∃ found, parse_genre "a good comdy" = Some found.
Proof.
  destruct (parse_genre_fuzzy_threshold "a good comdy" eq_refl)
    as (_ & _ & H).
  apply (H "com" "e"%char "dy").
  - unfold genres. set_unfold. tauto.
  - vm_compute. do 2 apply list_elem_of_further. apply list_elem_of_here.
Defined.

(** X6. When the text has no alias and one of its tokens, whatever
    whitespace delimits it, is a genre of the vocabulary, some genre is
    returned: the token matches itself with ratio 100 in the fuzzy
    step, if nothing was matched before. *)
Theorem parse_genre_finds_genre_token (query word : string) :
  contains "scifi" query = false →
  word ∈ split_ws query →
  word ∈ genres →
  ∃ genre, parse_genre query = Some genre.
Proof.
  intros Halias Hword Hgenre.
  assert (Hself : Qgtb (fuzz_ratio word word) 80 = true).
  { assert (0 < strlen word) as Hlen.
    { unfold genres in Hgenre.
      repeat (apply elem_of_cons in Hgenre as [-> | Hgenre];
              [simpl; lia|]).
      by apply elem_of_nil in Hgenre. }
    apply fuzz_above_80; [lia|]. rewrite lcs_refl. lia. }
  unfold parse_genre, parse_genre_with. rewrite Halias.
  destruct (first_some _ genres) as [g|]; [by exists g|].
  destruct (first_some _ (split_ws query)) as [g|] eqn:E; [by exists g|].
  exfalso. revert E. apply (first_some_found _ _ word Hword).
  apply (first_some_found _ _ word Hgenre). by rewrite Hself.
Qed.

Lemma parse_genre_finds_genre_token_witness :
  ∃ genre,
    parse_genre ("old" +:+ String (ascii_of_nat 9) "comedy") = Some genre.
Proof.
  apply (parse_genre_finds_genre_token _ "comedy").
  - reflexivity.
  - vm_compute. apply list_elem_of_further, list_elem_of_here.
  - unfold genres. set_unfold. tauto.
Defined.

(** ** [clean_mashed_names] *)

Lemma clean_mashed_names_head (c : ascii) (r : string) :
  ∃ t, clean_mashed_names (String c r) = String c t.
Proof. simpl. by eexists. Qed.

Lemma has_boundary_cons (c d : ascii) (r : string) :
  has_boundary (String c (String d r))
  = is_lower c && is_upper d || has_boundary (String d r).
Proof. reflexivity. Qed.

Lemma clean_mashed_names_no_boundary (s : string) :
  has_boundary (clean_mashed_names s) = false.
Proof.
  induction s as [|c r IH]; [done|].
  destruct r as [|d r']; [done|].
  destruct (clean_mashed_names_head d r') as [t Ht].
  change (clean_mashed_names (String c (String d r')))
    with (String c (if is_lower c && is_upper d
                    then ", " +:+ clean_mashed_names (String d r')
                    else clean_mashed_names (String d r'))).
  rewrite Ht in *.
  destruct (is_lower c && is_upper d) eqn:E.
  - change (", " +:+ String d t) with (String "," (String " " (String d t))).
    rewrite !has_boundary_cons, IH.
    change (is_upper ",") with false. change (is_lower ",") with false.
    change (is_lower " ") with false.
    by rewrite !andb_false_r.
  - by rewrite has_boundary_cons, E, IH.
Qed.

Lemma clean_mashed_names_fixed (s : string) :
  has_boundary s = false → clean_mashed_names s = s.
Proof.
  induction s as [|c r IH]; [done|].
  destruct r as [|d r']; [done|].
  rewrite has_boundary_cons. intros [E Hr]%orb_false_elim.
  change (clean_mashed_names (String c (String d r')))
    with (String c (if is_lower c && is_upper d
                    then ", " +:+ clean_mashed_names (String d r')
                    else clean_mashed_names (String d r'))).
  rewrite E. by rewrite IH.
Qed.

(** X7. [clean_mashed_names] leaves no lowercase letter directly
    followed by an uppercase letter, changes nothing in a text that has
    no such place, and so changes nothing when applied a second time. *)
Theorem clean_mashed_names_idempotent (text : string) :
  has_boundary (clean_mashed_names text) = false
  ∧ (has_boundary text = false → clean_mashed_names text = text)
  ∧ clean_mashed_names (clean_mashed_names text) = clean_mashed_names text.
Proof.
  split; [apply clean_mashed_names_no_boundary|].
  split; [apply clean_mashed_names_fixed|].
  apply clean_mashed_names_fixed, clean_mashed_names_no_boundary.
Qed.

Lemma clean_mashed_names_idempotent_witness :
  clean_mashed_names "Al Pacino, Robert De Niro" = "Al Pacino, Robert De Niro".
Proof.
  destruct (clean_mashed_names_idempotent "Al Pacino, Robert De Niro")
    as (_ & Hfixed & _).
  apply Hfixed. reflexivity.
Defined.

(** ** From the description to the year filter *)

(** The decimal text of a four-digit number: checked on each of them. *)
Lemma str_Z_four_digits (y : Z) :
  (1000 ≤ y ≤ 9999)%Z →
  strlen (str_Z y) = 4 ∧ all_chars is_digit (str_Z y) = true
  ∧ int (str_Z y) = y.
Proof.
  intros Hy.
  assert (Hall : forallb
                   (λ n, let y := Z.of_nat n in
                         (strlen (str_Z y) =? 4)
                         && all_chars is_digit (str_Z y)
                         && (int (str_Z y) =? y)%Z)
                   (seq (Z.to_nat 1000) (Z.to_nat 9000)) = true)
    by (vm_compute; reflexivity).
  rewrite forallb_forall in Hall.
  specialize (Hall (Z.to_nat y)). rewrite Z2Nat.id in Hall by lia.
  destruct (andb_prop _ _ (Hall ltac:(apply in_seq; lia))) as [H12 H3].
  apply andb_prop in H12 as [H1 H2].
  apply Nat.eqb_eq in H1. apply Z.eqb_eq in H3. done.
Qed.

Lemma starts_with_strip (p s : string) :
  starts_with p s = false → strip_prefix p s = None.
Proof.
  revert s. induction p as [|a p IH]; intros s; [done|].
  destruct s as [|b s]; [done|]. cbn [starts_with strip_prefix].
  destruct (Ascii.eqb a b); [|done]. apply IH.
Qed.

(** A pattern that starts in a text and has none of the character [c]
    does not reach over a [c] that follows the text. *)
Lemma starts_with_before (p v rest : string) (c : ascii) :
  all_chars (λ x, negb (Ascii.eqb x c)) p = true →
  starts_with p v = false →
  starts_with p (v +:+ String c rest) = false.
Proof.
  revert v. induction p as [|a p IH]; intros v Hp Hv; [done|].
  cbn [all_chars] in Hp. apply andb_prop in Hp as [Ha Hp].
  destruct v as [|b v].
  - rewrite str_app_nil_l. cbn [starts_with].
    apply negb_true_iff in Ha. by rewrite Ha.
  - rewrite str_app_cons. cbn [starts_with] in *.
    destruct (Ascii.eqb a b); [|done]. by apply IH.
Qed.

(** The marker is not found in a line that does not contain "Year: ";
    the search goes on after the end of the line. *)
Lemma year_marker_skip_line (line rest : string) (prev : option ascii) :
  contains "Year: " line = false →
  search_from year_marker_at prev (line +:+ nl +:+ rest)
  = search_from year_marker_at (Some (ascii_of_nat 10)) rest.
Proof.
  revert prev. induction line as [|c line IH]; intros prev Hline.
  - reflexivity.
  - cbn [contains] in Hline. apply orb_false_elim in Hline as [Hhere Hline].
    rewrite str_app_cons. cbn [search_from].
    assert (year_marker_at prev (String c (line +:+ nl +:+ rest)) = None)
      as ->.
    { unfold year_marker_at. rewrite starts_with_strip; [done|].
      rewrite <- str_app_cons.
      change (nl +:+ rest) with (String (ascii_of_nat 10) rest).
      by apply starts_with_before. }
    by apply IH.
Qed.

(** X8. The description that ingestion writes for a record whose title
    does not contain "Year: " and whose year, truncated, has four
    digits carries that year as its year marker: the marker that
    [search_movies] reads back is the year of the record, and the year
    check of the search accepts the document of the record exactly
    when the year lies in the parsed range. *)
Theorem description_year_marker `{FloatFormat} (row : Movie) (y : Z) :
  contains "Year: " (title row) = false →
  int_of_float (year row) = Some y →
  (1000 ≤ y ≤ 9999)%Z →
  re_search year_marker_at (make_description row) = Some (str_Z y)
  ∧ int (str_Z y) = y
  ∧ ∀ lo hi,
      year_check (Some (lo, hi)) (to_document (with_description row))
      = (lo <=? y)%Z && (y <=? hi)%Z.
Proof.
  intros Htitle Hyear Hy.
  destruct (str_Z_four_digits y Hy) as (Hlen & Hdigits & Hint).
  assert (Hfound : re_search year_marker_at (make_description row)
                   = Some (str_Z y)).
  { assert (∃ rest, make_description row
              = ("Title: " +:+ title row) +:+ nl +:+
                "Year: " +:+ str_Z y +:+ rest) as [rest ->].
    { unfold make_description. rewrite Hyear.
      destruct (notna (metascore row) && cell_ne_str (metascore row) "Unknown");
        eexists; rewrite !str_app_assoc; reflexivity. }
    unfold re_search. rewrite year_marker_skip_line.
    - apply search_from_here. by apply year_marker_at_match.
    - change ("Title: " +:+ title row)
        with (String "T" (String "i" (String "t" (String "l" (String "e"
                (String ":" (String " " (title row)))))))).
      cbn [contains starts_with]. rewrite Htitle. reflexivity. }
  split; [done|]. split; [done|].
  intros lo hi. unfold year_check.
  change (page_content (to_document (with_description row)))
    with (make_description row).
  by rewrite Hfound, Hint.
Qed.

Lemma description_year_marker_witness :
  re_search year_marker_at
    (@make_description Sample.format
       (Sample.movie "Up" "Pete Docter" "Edward Asner" 2009 (83 # 10)))
  = Some "2009".
Proof.
  apply (@description_year_marker Sample.format
           (Sample.movie "Up" "Pete Docter" "Edward Asner" 2009 (83 # 10))
           2009); [reflexivity|reflexivity|lia].
Defined.

(** ** From the fields of a record to the genre filter *)

Lemma lower_app (s t : string) : lower (s +:+ t) = lower s +:+ lower t.
Proof.
  induction s as [|c s IH]; [done|].
  rewrite str_app_cons. cbn [lower]. by rewrite IH, str_app_cons.
Qed.

Lemma contains_inside (p before s after : string) :
  contains p s = true → contains p (before +:+ s +:+ after) = true.
Proof.
  intros (a & b & ->)%contains_iff.
  rewrite <- !str_app_assoc, (str_app_assoc _ p b), (str_app_assoc _ (p +:+ b)).
  rewrite (str_app_assoc p b after). apply contains_app.
Qed.

(** X9. The genre filter of [search_movies] looks at the whole text of
    a document: on the document that ingestion makes of a record, it
    accepts a genre word that occurs, in whatever case, in the genre of
    the record (the rows that the genre filter of
    [get_movie_statistics] keeps), and also one that occurs in its
    title, its director or its cast. *)
Theorem genre_check_any_field `{FloatFormat} (g : string) (row : Movie) :
  contains g (lower (genre row)) = true
  ∨ contains g (lower (title row)) = true
  ∨ contains g (lower (director row)) = true
  ∨ contains g (lower (cast row)) = true →
  genre_check (Some g) (to_document (with_description row)) = true.
Proof.
  intros Hfield. unfold genre_check.
  change (page_content (to_document (with_description row)))
    with (make_description row).
  assert (Hin : ∀ field before after,
            make_description row = before +:+ field +:+ after →
            contains g (lower field) = true →
            contains g (lower (make_description row)) = true).
  { intros field before after -> Hg. rewrite !lower_app.
    by apply contains_inside. }
  assert (∃ tail, make_description row
            = "Title: " +:+ title row +:+ nl +:+
              "Year: " +:+ match int_of_float (year row) with
                           | Some y => str_Z y
                           | None => "Unknown"
                           end +:+ nl +:+
              "Genre: " +:+ genre row +:+ nl +:+
              "Rating: " +:+ str_pyfloat (rating row) +:+ "/10" +:+ nl +:+
              "Director: " +:+ director row +:+ nl +:+
              "Cast: " +:+ cast row +:+ tail) as [tail Hdesc].
  { unfold make_description.
    destruct (notna (metascore row) && cell_ne_str (metascore row) "Unknown");
      eexists; rewrite ?str_app_assoc; reflexivity. }
  destruct Hfield as [Hg|[Hg|[Hg|Hg]]].
  - eapply (Hin (genre row)); [|done]. rewrite Hdesc.
    rewrite <- (str_app_assoc "Title: "), <- (str_app_assoc _ nl).
    rewrite <- (str_app_assoc _ "Year: "), <- (str_app_assoc _ _ (nl +:+ _)).
    rewrite <- (str_app_assoc _ nl), <- (str_app_assoc _ "Genre: ").
    reflexivity.
  - eapply (Hin (title row) "Title: "); [|done]. by rewrite Hdesc.
  - eapply (Hin (director row)); [|done]. rewrite Hdesc.
    rewrite <- (str_app_assoc "Title: "), <- (str_app_assoc _ nl).
    rewrite <- (str_app_assoc _ "Year: "), <- (str_app_assoc _ _ (nl +:+ _)).
    rewrite <- (str_app_assoc _ nl), <- (str_app_assoc _ "Genre: ").
    rewrite <- (str_app_assoc _ (genre row)), <- (str_app_assoc _ nl).
    rewrite <- (str_app_assoc _ "Rating: "), <- (str_app_assoc _ (str_pyfloat _)).
    rewrite <- (str_app_assoc _ "/10"), <- (str_app_assoc _ nl).
    rewrite <- (str_app_assoc _ "Director: ").
    reflexivity.
  - eapply (Hin (cast row)); [|done]. rewrite Hdesc.
    rewrite <- (str_app_assoc "Title: "), <- (str_app_assoc _ nl).
    rewrite <- (str_app_assoc _ "Year: "), <- (str_app_assoc _ _ (nl +:+ _)).
    rewrite <- (str_app_assoc _ nl), <- (str_app_assoc _ "Genre: ").
    rewrite <- (str_app_assoc _ (genre row)), <- (str_app_assoc _ nl).
    rewrite <- (str_app_assoc _ "Rating: "), <- (str_app_assoc _ (str_pyfloat _)).
    rewrite <- (str_app_assoc _ "/10"), <- (str_app_assoc _ nl).
    rewrite <- (str_app_assoc _ "Director: "), <- (str_app_assoc _ (director row)).
    rewrite <- (str_app_assoc _ nl), <- (str_app_assoc _ "Cast: ").
    reflexivity.
Qed.

Lemma genre_check_any_field_witness :
  genre_check (Some "drama")
    (to_document
       (@with_description Sample.format
          (Sample.movie "Up" "Pete Docter" "Edward Asner" 2009 (83 # 10))))
  = true.
Proof.
  apply (@genre_check_any_field Sample.format). left. reflexivity.
Defined.

(** ** The imputation of [ingest_movies] *)

Lemma length_insert_sorted (x : Q) (l : list Q) :
  length (insert_sorted x l) = S (length l).
Proof.
  induction l as [|y l IH]; [done|]. simpl.
  destruct (Qle_bool x y); simpl; by rewrite ?IH.
Qed.

Lemma length_sort_values (l : list Q) : length (sort_values l) = length l.
Proof.
  induction l as [|x l IH]; [done|].
  unfold sort_values in *. simpl. by rewrite length_insert_sorted, IH.
Qed.

(** The median of a column that has a value is a value. *)
Lemma median_defined (xs : list pyfloat) :
  dropna xs ≠ [] → ∃ q, median xs = Fin q.
Proof.
  intros Hne. unfold median.
  set (v := sort_values (dropna xs)).
  assert (0 < length v) as Hlen.
  { unfold v. rewrite length_sort_values.
    destruct (dropna xs); [done|simpl; lia]. }
  assert (length v / 2 < length v) as Hmid
    by (apply Nat.Div0.div_lt_upper_bound; lia).
  destruct (lookup_lt_is_Some_2 v _ Hmid) as [hi ->].
  destruct (Nat.odd (length v)); [by eexists|].
  destruct (lookup_lt_is_Some_2 v (length v / 2 - 1)) as [lo ->]; [lia|].
  by eexists.
Qed.

Lemma median_all_missing (xs : list pyfloat) :
  dropna xs = [] → median xs = NaN.
Proof. intros H. unfold median. by rewrite H. Qed.

Lemma dropna_elem (xs : list pyfloat) (q : Q) :
  Fin q ∈ xs → dropna xs ≠ [].
Proof.
  intros Hin Hnil.
  assert (q ∈ dropna xs) as Hq.
  { unfold dropna. apply list_elem_of_omap. by exists (Fin q). }
  rewrite Hnil in Hq. by apply elem_of_nil in Hq.
Qed.

Lemma dropna_all_missing (xs : list pyfloat) :
  (∀ x, x ∈ xs → x = NaN) → dropna xs = [].
Proof.
  induction xs as [|x xs IH]; [done|]. intros Hall.
  unfold dropna in *. cbn [omap list_omap].
  rewrite (Hall x) by apply list_elem_of_here.
  apply IH. intros y Hy. apply Hall. by apply list_elem_of_further.
Qed.

(** X10. The imputation keeps the rows, one for one and in order, with
    their titles; it never changes a year that is present, a rating or
    a metascore; it writes "Unknown" for a missing genre, director,
    cast, certificate or overview. If at least one row has a year, no
    row is left without one; if no row has a year, every year stays
    missing. *)
Theorem clean_data_imputes (raw : list RawRow) :
  length (clean_data raw) = length raw
  ∧ (∀ i r,
       raw !! i = Some r →
       ∃ row,
         clean_data raw !! i = Some row
         ∧ title row = raw_title r
         ∧ rating row = raw_rating r
         ∧ metascore row = raw_metascore r
         ∧ (∀ q, raw_year r = Fin q → year row = Fin q)
         ∧ genre row = default "Unknown" (raw_genre r)
         ∧ director row = default "Unknown" (raw_director r)
         ∧ cast row = default "Unknown" (raw_cast r)
         ∧ certificates row = default "Unknown" (raw_certificates r)
         ∧ overview row = default "Unknown" (raw_overview r))
  ∧ ((∃ r q, r ∈ raw ∧ raw_year r = Fin q) →
       ∀ row, row ∈ clean_data raw → year row ≠ NaN)
  ∧ ((∀ r, r ∈ raw → raw_year r = NaN) →
       ∀ row, row ∈ clean_data raw → year row = NaN).
Proof.
  split; [|split; [|split]].
  - unfold clean_data. by rewrite length_fmap.
  - intros i r Hi. unfold clean_data. rewrite list_lookup_fmap, Hi.
    eexists. split; [reflexivity|]. cbn.
    repeat split; try done. by intros q ->.
  - intros (r & q & Hr & Hq) row Hrow.
    destruct (median_defined (raw_year <$> raw)) as [m Hm].
    { apply (dropna_elem _ q). rewrite <- Hq. by apply list_elem_of_fmap_2. }
    unfold clean_data in Hrow.
    apply list_elem_of_fmap in Hrow as (r' & -> & _). cbn.
    rewrite Hm. by destruct (raw_year r').
  - intros Hall row Hrow.
    assert (median (raw_year <$> raw) = NaN) as Hm.
    { apply median_all_missing, dropna_all_missing.
      intros x (r & -> & Hr)%list_elem_of_fmap. by apply Hall. }
    unfold clean_data in Hrow.
    apply list_elem_of_fmap in Hrow as (r' & -> & Hr'). cbn.
    rewrite Hm, (Hall r' Hr'). done.
Qed.

Lemma clean_data_imputes_witness :
  Forall (λ row, year row ≠ NaN) (clean_data SampleRaw.rows).
Proof.
  apply Forall_forall.
  destruct (clean_data_imputes SampleRaw.rows) as (_ & _ & H & _).
  apply H. exists (SampleRaw.raw "Heat" (Fin 1995) (Some "Action")), 1995%Q.
  split; [apply list_elem_of_here|reflexivity].
Defined.

(** ** [ingest_movies] on every disk *)

(** What a run does to the disk and how it ends, case by case. *)
Lemma ingest_movies_effect `{FloatFormat} `{Platform} (d : Disk) :
  let d' := (ingest_movies d).1.1 in
  let ending := (ingest_movies d).2 in
  let table :=
    match cache_file d with
    | Some pickled => read_pickle pickled
    | None =>
        match read_csv (csv_file d) with
        | inr raw => inr (with_description <$> clean_data raw)
        | inl e => inl e
        end
    end in
  let saved :=
    match cache_file d, table with
    | None, inr df => Some (to_pickle df)
    | _, _ => cache_file d
    end in
  csv_file d' = csv_file d
  ∧ cache_file d' = saved
  ∧ match table with
    | inl e =>
        index_dir d' = index_dir d
        ∧ ending = match cache_file d with
                   | Some _ => Raised e
                   | None => Returned ()
                   end
    | inr df =>
        match index_dir d with
        | Some _ => index_dir d' = index_dir d ∧ ending = Returned ()
        | None =>
            match from_documents (split_documents (to_document <$> df)) with
            | inr vs =>
                index_dir d' = Some (save_local vs) ∧ ending = Returned ()
            | inl e => index_dir d' = None ∧ ending = Raised e
            end
        end
    end.
Proof.
  unfold ingest_movies, create_vector_db.
  destruct (cache_file d) as [pickled|] eqn:Hcache.
  - destruct (read_pickle pickled) as [e|df]; cbn; [by rewrite Hcache|].
    destruct (index_dir d) as [index|] eqn:Hindex; cbn;
      [by rewrite Hcache, Hindex|].
    destruct (from_documents _) as [e|vs]; cbn; by rewrite Hcache, ?Hindex.
  - destruct (read_csv (csv_file d)) as [e|raw]; cbn; [by rewrite Hcache|].
    destruct (index_dir d) as [index|] eqn:Hindex; cbn; [done|].
    destruct (from_documents _) as [e|vs]; cbn; done.
Qed.

(** X11. A run of the ingestion never changes the CSV and never
    replaces or removes an artifact that exists: a cache file and an
    index directory that are on the disk before the run are on it
    afterwards with the same content, however the run ends. *)
Theorem ingest_movies_keeps_artifacts `{FloatFormat} `{Platform} (d : Disk) :
  let d' := (ingest_movies d).1.1 in
  csv_file d' = csv_file d
  ∧ (∀ cache, cache_file d = Some cache → cache_file d' = Some cache)
  ∧ (∀ index, index_dir d = Some index → index_dir d' = Some index).
Proof.
  destruct (ingest_movies_effect d) as (Hcsv & Hcache & Hrest).
  cbv zeta. split; [done|]. split.
  - intros cache Hc. by rewrite Hcache, Hc.
  - intros index Hi. rewrite Hi in Hrest.
    by repeat case_match; destruct Hrest as [-> _].
Qed.

Lemma ingest_movies_keeps_artifacts_witness :
  index_dir (@ingest_movies Sample.format SampleRaw.platform
               {| csv_file := None; cache_file := None;
                  index_dir := Some "old index" |}).1.1
  = Some "old index".
Proof.
  by apply (@ingest_movies_keeps_artifacts Sample.format SampleRaw.platform).
Defined.

(** X12. When a run of the ingestion returns normally, either the index
    exists afterwards, or there was no cache and the CSV could not be
    read: then the error was only printed, and the disk is as it was,
    without cache. A run that raises leaves the index as it was. *)
Theorem ingest_movies_return `{FloatFormat} `{Platform} (d : Disk) :
  let d' := (ingest_movies d).1.1 in
  ((ingest_movies d).2 = Returned () →
     index_dir d' ≠ None
     ∨ (cache_file d = None
        ∧ (∃ e, read_csv (csv_file d) = inl e)
        ∧ d' = d))
  ∧ (∀ e, (ingest_movies d).2 = Raised e → index_dir d' = index_dir d).
Proof.
  destruct (ingest_movies_effect d) as (Hcsv & Hcache & Hrest).
  cbv zeta in *. split.
  - intros Hret. rewrite Hret in Hrest.
    destruct (cache_file d) as [pickled|] eqn:Hc.
    + destruct (read_pickle pickled) as [e|df]; [by destruct Hrest|].
      left. destruct (index_dir d) as [index|].
      * destruct Hrest as [-> _]. done.
      * destruct (from_documents _); destruct Hrest as [-> ?]; done.
    + destruct (read_csv (csv_file d)) as [e|raw] eqn:Hr.
      * right. split; [done|]. split; [by exists e|].
        destruct Hrest as [Hindex _].
        destruct (ingest_movies d).1.1 as [c1 c2 c3], d as [d1 d2 d3].
        simpl in *. congruence.
      * left. destruct (index_dir d) as [index|].
        -- destruct Hrest as [-> _]. done.
        -- destruct (from_documents _); destruct Hrest as [-> ?]; done.
  - intros e He. rewrite He in Hrest.
    by repeat case_match; destruct Hrest as [Hi ?]; rewrite ?Hi.
Qed.

Lemma ingest_movies_return_witness :
  index_dir (@ingest_movies Sample.format SampleRaw.platform
               SampleRaw.fresh).1.1 ≠ None
  ∨ (cache_file SampleRaw.fresh = None
     ∧ (∃ e, @read_csv SampleRaw.platform (csv_file SampleRaw.fresh) = inl e)
     ∧ (@ingest_movies Sample.format SampleRaw.platform SampleRaw.fresh).1.1
       = SampleRaw.fresh).
Proof.
  by apply (@ingest_movies_return Sample.format SampleRaw.platform
              SampleRaw.fresh).
Defined.

(** X13. When the table that a run would save loads again as it was,
    running the ingestion a second time leaves the disk as the first
    run left it, from every disk. *)
Theorem ingest_movies_twice `{FloatFormat} `{Platform} (d : Disk) :
  (∀ raw,
     read_csv (csv_file d) = inr raw →
     let df := with_description <$> clean_data raw in
     read_pickle (to_pickle df) = inr df) →
  (ingest_movies (ingest_movies d).1.1).1.1 = (ingest_movies d).1.1.
Proof.
  intros Hround.
  destruct (ingest_movies_effect d) as (Hcsv & Hcache & Hrest).
  destruct (ingest_movies_effect (ingest_movies d).1.1)
    as (Hcsv2 & Hcache2 & Hrest2).
  cbv zeta in *.
  set (d1 := (ingest_movies d).1.1) in *.
  set (d2 := (ingest_movies d1).1.1) in *.
  assert (Heq : csv_file d2 = csv_file d1 ∧ cache_file d2 = cache_file d1
                ∧ index_dir d2 = index_dir d1).
  { split; [done|].
    destruct (cache_file d) as [pickled|] eqn:Hc.
    - assert (cache_file d1 = Some pickled) as Hc1 by by rewrite Hcache.
      rewrite Hc1 in Hcache2, Hrest2.
      split; [by rewrite Hcache2|].
      destruct (read_pickle pickled) as [e|df]; [by destruct Hrest2|].
      destruct (index_dir d) as [index|].
      + destruct Hrest as [Hi _]. rewrite Hi in Hrest2 |- *.
        by destruct Hrest2.
      + destruct (from_documents _) as [e|vs];
          destruct Hrest as [Hi _]; rewrite Hi in Hrest2 |- *;
          by destruct Hrest2.
    - destruct (read_csv (csv_file d)) as [e|raw] eqn:Hr.
      + destruct Hrest as [Hi _].
        rewrite Hcache, Hcsv in Hcache2, Hrest2. rewrite Hr in Hcache2, Hrest2.
        split; [by rewrite Hcache2, Hcache|]. by destruct Hrest2.
      + rewrite Hcache in Hcache2, Hrest2.
        rewrite (Hround raw eq_refl) in Hrest2.
        split; [by rewrite Hcache2, Hcache|].
        destruct (index_dir d) as [index|].
        * destruct Hrest as [Hi _]. rewrite Hi in Hrest2 |- *.
          by destruct Hrest2.
        * destruct (from_documents _) as [e|vs];
            destruct Hrest as [Hi _]; rewrite Hi in Hrest2 |- *;
            by destruct Hrest2. }
  destruct d2 as [a2 b2 c2], d1 as [a1 b1 c1]. simpl in Heq.
  destruct Heq as (-> & -> & ->). done.
Qed.

Lemma ingest_movies_twice_witness :
  (@ingest_movies Sample.format SampleRaw.platform
     (@ingest_movies Sample.format SampleRaw.platform SampleRaw.fresh).1.1).1.1
  = (@ingest_movies Sample.format SampleRaw.platform SampleRaw.fresh).1.1.
Proof.
  apply (@ingest_movies_twice Sample.format SampleRaw.platform).
  by intros raw [= <-].
Defined.

(** ** [get_vector_store] and the start of the agents *)

(** The disk after [get_vector_store] on a disk without index is the
    disk after the ingestion. *)
Lemma get_vector_store_disk `{FloatFormat} `{Platform} `{Loader}
    (d : Disk) (out : list string) :
  index_dir d = None →
  (get_vector_store d out).1.1 = (ingest_movies d).1.1.
Proof.
  intros Hi. unfold get_vector_store. rewrite Hi.
  destruct (ingest_movies d) as [[d' printed] [[]|e]]; cbn; [|done].
  by repeat case_match.
Qed.

(** A store that [get_vector_store] returns was loaded from the index
    on the disk afterwards. *)
Lemma get_vector_store_loaded `{FloatFormat} `{Platform} `{Loader}
    (d : Disk) (out : list string) (vs : VectorStore) :
  (get_vector_store d out).2 = Returned vs →
  ∃ index,
    index_dir (get_vector_store d out).1.1 = Some index
    ∧ load_local index = inr vs.
Proof.
  unfold get_vector_store.
  destruct (index_dir d) as [index|] eqn:Hi; cbn.
  - rewrite Hi. destruct (load_local index) as [e|vs'] eqn:Hl; [done|].
    cbn. intros [= <-]. by exists index.
  - destruct (ingest_movies d) as [[d' printed] [[]|e]]; cbn; [|done].
    destruct (index_dir d') as [index|] eqn:Hi'; [|done].
    destruct (load_local index) as [e|vs'] eqn:Hl; [done|].
    cbn. intros [= <-]. by exists index.
Qed.

(** X14. [get_vector_store] runs the ingestion only when the index
    directory is missing: with an index on the disk it leaves the disk
    and the output as they are and answers with what the load gives.
    In every case a store that it returns was loaded from the index
    that is on the disk afterwards. When there is neither index nor
    cache and the CSV cannot be read, the ingestion only prints its
    error, and [get_vector_store] raises the error of loading a missing
    index, the disk unchanged. *)
Theorem get_vector_store_spec `{FloatFormat} `{Platform} `{Loader}
    (d : Disk) (out : list string) :
  (∀ index,
     index_dir d = Some index →
     get_vector_store d out
     = (d, out, match load_local index with
                | inr vs => Returned vs
                | inl e => Raised e
                end))
  ∧ (index_dir d = None →
       (get_vector_store d out).1.1 = (ingest_movies d).1.1)
  ∧ (∀ vs,
       (get_vector_store d out).2 = Returned vs →
       ∃ index,
         index_dir (get_vector_store d out).1.1 = Some index
         ∧ load_local index = inr vs)
  ∧ (index_dir d = None → cache_file d = None →
     (∃ e, read_csv (csv_file d) = inl e) →
     (get_vector_store d out).1.1 = d
     ∧ (get_vector_store d out).2 = Raised missing_index_error).
Proof.
  split; [|split; [|split]].
  - intros index Hi. unfold get_vector_store. rewrite Hi. cbn. rewrite Hi.
    by destruct (load_local index).
  - apply get_vector_store_disk.
  - apply get_vector_store_loaded.
  - intros Hi Hc [e He].
    destruct (ingest_movies_effect d) as (Hcsv & Hcache & Hrest).
    cbv zeta in *. rewrite Hc, He, Hi in *. destruct Hrest as [Hindex Hend].
    assert ((ingest_movies d).1.1 = d) as Hdisk.
    { destruct (ingest_movies d).1.1 as [a b c], d as [a0 b0 c0].
      simpl in *. congruence. }
    unfold get_vector_store. rewrite Hi.
    destruct (ingest_movies d) as [[d' printed] ending].
    cbn in Hdisk, Hend. subst d' ending. cbn. by rewrite Hi.
Qed.

Lemma get_vector_store_spec_witness :
  (@get_vector_store Sample.format Sample.platform SampleRaw.loader
     {| csv_file := None; cache_file := None; index_dir := None |} []).2
  = Raised "RuntimeError: could not open index".
Proof.
  destruct (@get_vector_store_spec Sample.format Sample.platform
              SampleRaw.loader
              {| csv_file := None; cache_file := None; index_dir := None |} [])
    as (_ & _ & _ & Hfail).
  apply Hfail; [reflexivity|reflexivity|by eexists].
Defined.

(** X15. The agents read the table before they load the index. When
    they start on a disk without cache and the start succeeds, the
    table stays unloaded in the process, although, when the index was
    missing too, the ingestion started by the load has written the
    cache in the meantime: [get_movie_statistics] and
    [generate_movie_quiz] then answer every query with their "not
    loaded" errors, while the index is loaded. *)
Theorem agents_startup_without_cache `{FloatFormat} `{Platform} `{Loader}
    (np py : Rng) (d : Disk) (w : World) :
  cache_file d = None →
  (agents_startup np py d).2 = Returned w →
  df w = None
  ∧ vectorstore w ≠ None
  ∧ (index_dir d = None → cache_file (agents_startup np py d).1.1 ≠ None)
  ∧ (∀ query,
       get_movie_statistics query w = (Ret "Error: Data cache not loaded.", w)
       ∧ generate_movie_quiz query w = (Ret "Error: Data not loaded.", w)).
Proof.
  intros Hc Hret. unfold agents_startup in *. rewrite Hc in *.
  pose proof (get_vector_store_disk d []) as Hdisk.
  pose proof (get_vector_store_loaded d []) as Hloaded.
  destruct (get_vector_store d []) as [[d' out] [vs|e]] eqn:Hg; [|done].
  cbn in Hret. injection Hret as <-. cbn.
  split; [done|]. split; [done|]. split; [|done].
  intros Hi. specialize (Hdisk Hi). cbn in Hdisk. subst d'.
  destruct (Hloaded vs eq_refl) as (index & Hindex & _). cbn in Hindex.
  destruct (ingest_movies_effect d) as (_ & Hcache & Hrest).
  cbv zeta in *. rewrite Hc, Hi in *. rewrite Hcache.
  destruct (read_csv (csv_file d)) as [e|raw]; [|done].
  destruct Hrest as [Hnone _]. congruence.
Qed.

Lemma agents_startup_without_cache_witness :
  ∃ w,
    (@agents_startup Sample.format SampleRaw.platform SampleRaw.loader
       Sample.counter Sample.counter SampleRaw.fresh).2 = Returned w
    ∧ df w = None
    ∧ cache_file
        (@agents_startup Sample.format SampleRaw.platform SampleRaw.loader
           Sample.counter Sample.counter SampleRaw.fresh).1.1 ≠ None.
Proof.
  eexists. split; [reflexivity|].
  pose proof (@agents_startup_without_cache Sample.format SampleRaw.platform
                SampleRaw.loader Sample.counter Sample.counter
                SampleRaw.fresh _ eq_refl eq_refl) as (Hdf & _ & Hcache & _).
  split; [exact Hdf|]. by apply Hcache.
Defined.

(** ** [get_movie_statistics]: the subset and the exceptions *)

Lemma int_of_float_None (x : pyfloat) : int_of_float x = None ↔ x = NaN.
Proof. by destruct x. Qed.

Lemma top_lines_Raise `{FloatFormat} (top : list Movie) (res : string) :
  (∃ row, row ∈ top ∧ year row = NaN) →
  top_lines top res
  = Raise "ValueError: cannot convert float NaN to integer".
Proof.
  revert res. induction top as [|row top IH]; intros res (r & Hin & Hr).
  - by apply elem_of_nil in Hin.
  - cbn [top_lines]. destruct (int_of_float (year row)) as [y|] eqn:E; [|done].
    apply IH. apply elem_of_cons in Hin as [->|Hin]; [|by exists r].
    rewrite Hr in E. done.
Qed.

Lemma top_lines_Ret `{FloatFormat} (top : list Movie) (res : string) :
  (∀ row, row ∈ top → year row ≠ NaN) → ∃ answer, top_lines top res = Ret answer.
Proof.
  revert res. induction top as [|row top IH]; intros res Hall.
  - by eexists.
  - cbn [top_lines]. destruct (int_of_float (year row)) as [y|] eqn:E.
    + apply IH. intros r Hr. apply Hall. by apply list_elem_of_further.
    + apply int_of_float_None in E.
      by destruct (Hall row (list_elem_of_here _ _)).
Qed.

Lemma top_lines_Raise_inv `{FloatFormat} (top : list Movie) (res e : string) :
  top_lines top res = Raise e → ∃ row, row ∈ top ∧ year row = NaN.
Proof.
  revert res. induction top as [|row top IH]; intros res; [done|].
  cbn [top_lines]. destruct (int_of_float (year row)) as [y|] eqn:E.
  - intros (r & Hin & Hr)%IH. exists r.
    split; [by apply list_elem_of_further|done].
  - intros _. exists row. split; [apply list_elem_of_here|].
    by apply int_of_float_None.
Qed.

Lemma insert_desc_elem (key : Q) (row : Movie) (l : list (Q * Movie))
    (p : Q * Movie) :
  p ∈ insert_desc key row l → p = (key, row) ∨ p ∈ l.
Proof.
  induction l as [|[k r] l IH]; simpl.
  - intros ->%list_elem_of_singleton. by left.
  - destruct (Qle_bool k key).
    + intros [->|Hin]%elem_of_cons; [by left|by right].
    + intros [->|Hin]%elem_of_cons; [right; apply list_elem_of_here|].
      destruct (IH Hin) as [->|?]; [by left|].
      right. by apply list_elem_of_further.
Qed.

(** The rows that [nlargest] gives are rows of the table it is given. *)
Lemma nlargest_elem (n : nat) (rows : list Movie) (row : Movie) :
  row ∈ nlargest n rows → row ∈ rows.
Proof.
  unfold nlargest. intros Hin%subseteq_take.
  apply elem_of_app in Hin as [Hin|Hin].
  - apply list_elem_of_fmap in Hin as ([k r] & -> & Hin). cbn.
    induction rows as [|x rows IH]; [by apply elem_of_nil in Hin|].
    cbn [foldr] in Hin. destruct (rating x) as [|q].
    + apply list_elem_of_further. by apply IH.
    + apply insert_desc_elem in Hin as [[= -> ->]|Hin].
      * apply list_elem_of_here.
      * apply list_elem_of_further. by apply IH.
  - apply list_elem_of_In, filter_In in Hin as [Hin _].
    by apply list_elem_of_In.
Qed.

Lemma statistics_subset_table (table : list Movie) (query : string)
    (row : Movie) :
  row ∈ statistics_subset table query → row ∈ table.
Proof.
  unfold statistics_subset, filter_years, filter_genre.
  destruct (parse_year_range (lower query)) as [[lo hi]|];
    destruct (parse_genre (lower query)) as [g|];
    rewrite ?list_elem_of_In, ?filter_In; tauto.
Qed.

(** X16. The rows that [get_movie_statistics] works on are the rows of
    the table whose genre contains the parsed genre, in whatever case,
    and whose year is present and lies in the parsed range, when a
    genre or a range was parsed: a row without a year is left out
    whenever the query names a year. *)
Theorem statistics_subset_spec (table : list Movie) (query : string)
    (row : Movie) :
  row ∈ statistics_subset table query ↔
  row ∈ table
  ∧ (∀ g, parse_genre (lower query) = Some g →
          contains (lower g) (lower (genre row)) = true)
  ∧ (∀ lo hi, parse_year_range (lower query) = Some (lo, hi) →
              ∃ y, year row = Fin y
                   ∧ (inject_Z lo <= y)%Q ∧ (y <= inject_Z hi)%Q).
Proof.
  unfold statistics_subset, filter_years, filter_genre.
  destruct (parse_year_range (lower query)) as [[lo hi]|];
    destruct (parse_genre (lower query)) as [g|];
    rewrite ?list_elem_of_In, ?filter_In, ?andb_true_iff;
    unfold float_ge, float_le.
  - split.
    + intros [[Hin Hg] [Hlo Hhi]]. split; [done|].
      split; [by intros ? [= <-]|]. intros ? ? [= <- <-].
      destruct (year row) as [|y]; [done|].
      exists y. by rewrite <- !Qle_bool_iff.
    + intros (Hin & Hg & Hy).
      destruct (Hy lo hi eq_refl) as (y & -> & Hlo & Hhi).
      rewrite <- !Qle_bool_iff in Hlo, Hhi. by rewrite (Hg g eq_refl).
  - split.
    + intros [Hin [Hlo Hhi]]. split; [done|]. split; [done|].
      intros ? ? [= <- <-]. destruct (year row) as [|y]; [done|].
      exists y. by rewrite <- !Qle_bool_iff.
    + intros (Hin & _ & Hy).
      destruct (Hy lo hi eq_refl) as (y & -> & Hlo & Hhi).
      by rewrite <- !Qle_bool_iff in Hlo, Hhi.
  - split.
    + intros [Hin Hg]. split; [done|]. split; [by intros ? [= <-]|done].
    + intros (Hin & Hg & _). by rewrite (Hg g eq_refl).
  - split; [by intros ?|by intros (? & _)].
Qed.

(** X17. [get_movie_statistics] raises only in the ranking mode, the
    query naming "highest", "best" or "top" and not "average", and
    there exactly when one of the rows to list has no year. In the
    average mode, and on a table in which every row has a year, it
    answers every query. *)
Theorem statistics_raises `{FloatFormat} (table : list Movie)
    (query : string) :
  let ranking :=
    negb (contains "average" (lower query))
    && existsb (λ x, contains x (lower query)) ["highest"; "best"; "top"] in
  let listed := nlargest 5 (statistics_subset table query) in
  ((∃ e, statistics_on table query = Raise e) ↔
   ranking = true ∧ ∃ row, row ∈ listed ∧ year row = NaN)
  ∧ (contains "average" (lower query) = true →
       ∃ answer, statistics_on table query = Ret answer)
  ∧ ((∀ row, row ∈ table → year row ≠ NaN) →
       ∃ answer, statistics_on table query = Ret answer).
Proof.
  intros ranking listed.
  assert (Hmode : ranking = false →
            ∃ answer, statistics_on table query = Ret answer).
  { subst ranking. unfold statistics_on.
    destruct (contains "average" (lower query)); [by eexists|].
    cbn [negb andb]. intros ->. by eexists. }
  assert (Hrank : ranking = true →
            statistics_on table query
            = top_lines listed ("Highest rated movies:" +:+ nl)).
  { subst ranking. unfold statistics_on.
    destruct (contains "average" (lower query)); [done|].
    cbn [negb andb]. by intros ->. }
  assert (Hiff : (∃ e, statistics_on table query = Raise e) ↔
                 ranking = true ∧ ∃ row, row ∈ listed ∧ year row = NaN).
  { split.
    - intros [e He]. destruct ranking eqn:Hr.
      + split; [done|]. rewrite (Hrank eq_refl) in He.
        by apply top_lines_Raise_inv in He.
      + destruct (Hmode eq_refl) as [answer Ha]. congruence.
    - intros [Hr Hrow]. rewrite (Hrank Hr). eexists.
      by apply top_lines_Raise. }
  split; [done|]. split.
  - intros Havg. apply Hmode. subst ranking. by rewrite Havg.
  - intros Hall. destruct (statistics_on table query) as [answer|e] eqn:E;
      [by exists answer|].
    destruct (proj1 Hiff (ex_intro _ e eq_refl)) as (_ & row & Hin & Hnan).
    destruct (Hall row); [|done].
    by apply nlargest_elem, statistics_subset_table in Hin.
Qed.

Lemma statistics_raises_witness :
  ∃ answer,
    @statistics_on Sample.format Sample.table "top dramas of the 2010s"
    = Ret answer.
Proof.
  apply (@statistics_raises Sample.format Sample.table).
  intros row Hrow. unfold Sample.table in Hrow.
  repeat (apply elem_of_cons in Hrow as [-> | Hrow]; [done|]).
  by apply elem_of_nil in Hrow.
Defined.

(** ** Nothing is lost below five results *)

(** Every document of the list has its key among the kept ones, unless
    the key was seen before. *)
Lemma dedup_by_complete `{Countable K} (key : Document → K) (seen : gset K)
    (docs : list Document) (doc : Document) :
  doc ∈ docs → key doc ∉ seen →
  ∃ kept, kept ∈ dedup_by key seen docs ∧ key kept = key doc.
Proof.
  revert seen. induction docs as [|d docs IH]; intros seen Hin Hnew.
  - by apply elem_of_nil in Hin.
  - cbn [dedup_by]. destruct (decide (key d ∈ seen)) as [Hseen|Hfresh].
    + apply elem_of_cons in Hin as [->|Hin]; [done|]. by apply IH.
    + destruct (decide (key doc = key d)) as [Heq|Hne].
      * exists d. split; [apply list_elem_of_here|done].
      * apply elem_of_cons in Hin as [->|Hin]; [done|].
        destruct (IH ({[key d]} ∪ seen) Hin) as (kept & Hkept & Hk).
        { rewrite elem_of_union, elem_of_singleton. tauto. }
        exists kept. split; [by apply list_elem_of_further|done].
Qed.

Lemma take_short {A : Type} (n : nat) (l : list A) :
  length (take n l) < n → take n l = l.
Proof. rewrite length_take. intros Hlt. apply take_ge. lia. Qed.

(** X18. When [search_movies] lists fewer than five documents, no title
    was cut off: every candidate that passes the filters has its title
    in the list. Likewise, when [recommend_similar_movies] recommends
    fewer than five documents, every similar document whose title is
    not the reference's has its title among them. *)
Theorem fewer_than_five_is_complete (vs : VectorStore) :
  (∀ query doc,
     length (search_hits vs query) < 5 →
     doc ∈ similarity_search vs query 30 →
     passes (parse_year_range (lower query)) (parse_genre (lower query)) doc
     = true →
     ∃ hit, hit ∈ search_hits vs query ∧ doc_title hit = doc_title doc)
  ∧ (∀ movie_title ref others doc,
       similarity_search vs ("Title: " +:+ movie_title) 1 = ref :: others →
       length (recommend_on vs movie_title).2 < 5 →
       doc ∈ similarity_search vs (page_content ref) 10 →
       doc_title_opt doc ≠ doc_title_opt ref →
       ∃ pick, pick ∈ (recommend_on vs movie_title).2
               ∧ doc_title_opt pick = doc_title_opt doc).
Proof.
  split.
  - intros query doc Hlen Hin Hpass. rewrite search_hits_spec in *.
    rewrite (take_short _ _ Hlen).
    apply dedup_by_complete; [|apply not_elem_of_empty].
    apply list_elem_of_In, filter_In. split; [by apply list_elem_of_In|done].
  - intros movie_title ref others doc Href Hlen Hin Hne.
    assert ((recommend_on vs movie_title).2
            = take 5 (dedup_by doc_title_opt {[ doc_title_opt ref ]}
                        (similarity_search vs (page_content ref) 10)))
      as Hpicked.
    { unfold recommend_on. rewrite Href. cbv zeta.
      rewrite recommend_loop_spec by lia. cbv zeta. cbn [snd app].
      by rewrite (right_id_L ∅ (∪)). }
    rewrite Hpicked in *. rewrite (take_short _ _ Hlen).
    apply dedup_by_complete; [done|]. by rewrite elem_of_singleton.
Qed.

Lemma fewer_than_five_is_complete_witness :
  ∃ hit, hit ∈ search_hits Sample.store "movies with De Niro"
         ∧ doc_title hit = doc_title Sample.ronin.
Proof.
  destruct (fewer_than_five_is_complete Sample.store) as [Hsearch _].
  apply Hsearch.
  - vm_compute. lia.
  - vm_compute. do 3 apply list_elem_of_further. apply list_elem_of_here.
  - reflexivity.
Defined.

(** ** [generate_movie_quiz]: the draws *)

(** X19. [generate_movie_quiz] never raises. When it asks a question it
    takes one value from each of the two generators; when it answers
    with an error, the table not loaded or the pool too small, it takes
    none and leaves the state as it is. *)
Theorem generate_movie_quiz_draws (query : string) (w : World) :
  let w' := (generate_movie_quiz query w).2 in
  let small :=
    match df w with
    | Some table => length (quiz_pool table) <? 5
    | None => true
    end in
  (∃ answer, (generate_movie_quiz query w).1 = Ret answer)
  ∧ (small = true → w' = w)
  ∧ (small = false →
       stream (np_random w') = stream (np_random w)
       ∧ cursor (np_random w') = S (cursor (np_random w))
       ∧ stream (py_random w') = stream (py_random w)
       ∧ cursor (py_random w') = S (cursor (py_random w))).
Proof.
  cbv zeta. unfold generate_movie_quiz.
  destruct (df w) as [table|];
    [|by split; [eexists|split; [done|discriminate]]].
  destruct (length (quiz_pool table) <? 5) eqn:E;
    [by split; [eexists|split; [done|discriminate]]|].
  apply Nat.ltb_ge in E.
  unfold sample_one, choice_bool, draw.
  destruct (lookup_lt_is_Some_2 (quiz_pool table)
              (stream (np_random w) (cursor (np_random w))
               mod length (quiz_pool table))) as [movie ->].
  { apply Nat.mod_upper_bound. lia. }
  destruct (default false _); cbn;
    (split; [by eexists|split; [discriminate|done]]).
Qed.

Lemma generate_movie_quiz_draws_witness :
  cursor (np_random (generate_movie_quiz "quiz me" Sample.world).2) = 1
  ∧ cursor (py_random (generate_movie_quiz "quiz me" Sample.world).2) = 1.
Proof.
  destruct (generate_movie_quiz_draws "quiz me" Sample.world)
    as (_ & _ & Hdraws).
  destruct (Hdraws eq_refl) as (_ & Hnp & _ & Hpy). by split.
Defined.

(** ** Building the index from the cache *)

(** X20. With a cache that loads and no index, the ingestion builds the
    index from the cached table alone, whether or not the CSV exists:
    it hands over one document for each row, in order, with the
    description of the row as text and its title as the title of the
    document, and writes what the vector store saves into the index
    directory; the cache and the CSV stay as they are. If building the
    store fails, the exception is raised and the disk is unchanged. *)
Theorem ingest_movies_builds_from_cache `{FloatFormat} `{Platform}
    (d : Disk) (cache : string) (df : list Movie) :
  cache_file d = Some cache →
  read_pickle cache = inr df →
  index_dir d = None →
  let documents := to_document <$> df in
  let d' := (ingest_movies d).1.1 in
  length documents = length df
  ∧ (∀ i row, df !! i = Some row →
       ∃ doc, documents !! i = Some doc
              ∧ page_content doc = description row
              ∧ doc_title doc = title row)
  ∧ csv_file d' = csv_file d
  ∧ cache_file d' = Some cache
  ∧ (∀ vs, from_documents (split_documents documents) = inr vs →
       index_dir d' = Some (save_local vs)
       ∧ (ingest_movies d).2 = Returned ())
  ∧ (∀ e, from_documents (split_documents documents) = inl e →
       d' = d ∧ (ingest_movies d).2 = Raised e).
Proof.
  intros Hc Hp Hi documents d'.
  destruct (ingest_movies_effect d) as (Hcsv & Hcache & Hrest).
  cbv zeta in *. rewrite Hc, Hp, Hi in *. fold documents in Hrest.
  split; [by unfold documents; rewrite length_fmap|]. split.
  { intros i row Hrow. unfold documents. rewrite list_lookup_fmap, Hrow.
    eexists. split; [reflexivity|]. split; [done|].
    unfold doc_title, to_document. cbn. by rewrite lookup_singleton_eq. }
  split; [done|]. split; [done|]. split.
  - intros vs Hvs. by rewrite Hvs in Hrest.
  - intros e He. rewrite He in Hrest. destruct Hrest as [Hnone Hend].
    split; [|done]. subst d'.
    destruct (ingest_movies d).1.1 as [a b c], d as [a0 b0 c0].
    simpl in *. congruence.
Qed.

Lemma ingest_movies_builds_from_cache_witness :
  index_dir
    (@ingest_movies Sample.format Sample.platform
       {| csv_file := None; cache_file := Some "pickle";
          index_dir := None |}).1.1
  = Some "index".
Proof.
  destruct (@ingest_movies_builds_from_cache Sample.format Sample.platform
              {| csv_file := None; cache_file := Some "pickle";
                 index_dir := None |} "pickle" Sample.table
              eq_refl eq_refl eq_refl) as (_ & _ & _ & _ & Hbuild & _).
  by destruct (Hbuild Sample.store eq_refl) as [-> _].
Defined.

(** ** The fields that a listing shows *)

Lemma split_go_char_free (c : ascii) (a cur rest : string) :
  all_chars (λ x, negb (Ascii.eqb c x)) a = true →
  split_go (String c EmptyString) 0 cur (a +:+ rest)
  = split_go (String c EmptyString) 0 (String.rev_app a cur) rest.
Proof.
  revert cur. induction a as [|x a IH]; intros cur; [done|].
  cbn [all_chars]. intros [Hx Ha]%andb_prop. apply negb_true_iff in Hx.
  rewrite str_app_cons. cbn [split_go starts_with String.rev_app].
  rewrite Hx. cbn [andb]. by apply IH.
Qed.

Lemma rev_rev_app (a : string) : String.rev (String.rev_app a EmptyString) = a.
Proof.
  unfold String.rev. rewrite rev_app_rev_app. simpl. by rewrite str_app_nil_r.
Qed.

(** The first line of a text is the first piece of its split at the
    newlines. *)
Lemma split_first_line (line rest : string) :
  one_line line = true →
  split nl (line +:+ nl +:+ rest) = line :: split nl rest.
Proof.
  intros Hline. unfold split, nl.
  rewrite split_go_char_free by done.
  change (String (ascii_of_nat 10) EmptyString +:+ rest)
    with (String (ascii_of_nat 10) rest).
  cbn [split_go starts_with]. rewrite Ascii.eqb_refl. cbn [andb strlen].
  by rewrite rev_rev_app.
Qed.

Lemma starts_with_sep_app (v rest : string) :
  starts_with " " v = false →
  starts_with " " (v +:+ ": " +:+ rest) = false.
Proof. destruct v as [|x v]; [done|]. by rewrite str_app_cons. Qed.

(** A text without ": " is one piece, up to the next ": ". *)
Lemma split_go_sep_free (v cur rest : string) :
  contains ": " v = false →
  split_go ": " 0 cur (v +:+ ": " +:+ rest)
  = String.rev (String.rev_app v cur) :: split_go ": " 0 EmptyString rest.
Proof.
  revert cur. induction v as [|c v IH]; intros cur Hv.
  - rewrite str_app_nil_l.
    change (": " +:+ rest) with (String ":" (String " " rest)).
    reflexivity.
  - cbn [contains] in Hv. apply orb_false_elim in Hv as [Hhere Hv].
    rewrite str_app_cons. cbn [split_go String.rev_app].
    assert (starts_with ": " (String c (v +:+ ": " +:+ rest)) = false) as ->.
    { cbn [starts_with] in *. destruct (Ascii.eqb ":" c); [|done].
      cbn [andb] in *. by apply starts_with_sep_app. }
    by apply IH.
Qed.

Lemma split_go_sep_none (v cur : string) :
  contains ": " v = false →
  split_go ": " 0 cur v = [String.rev (String.rev_app v cur)].
Proof.
  revert cur. induction v as [|c v IH]; intros cur Hv; [done|].
  cbn [contains] in Hv. apply orb_false_elim in Hv as [Hhere Hv].
  cbn [split_go String.rev_app]. rewrite Hhere. by apply IH.
Qed.

(** X21. In a listing, the field of a line is what stands between its
    first ": " and its next ": ": when the first line of a document is
    a label, ": " and a value, the listing starts with the value if the
    value has no ": ", and with the part of the value before its first
    ": " if it has one; the fields of the following lines come after
    it. A title such as "Star Wars: Episode IV" is listed as
    "Star Wars". *)
Theorem info_line_cuts_value (doc : Document) (n : nat)
    (label shown cut rest : string) :
  page_content doc = label +:+ ": " +:+ shown +:+ cut +:+ nl +:+ rest →
  contains ": " label = false →
  contains ": " shown = false →
  one_line (label +:+ shown +:+ cut) = true →
  (cut = EmptyString ∨ ∃ more, cut = ": " +:+ more) →
  info_line (S n) doc
  = join " | " (shown :: shown_fields (take n (split nl rest))).
Proof.
  intros Hcontent Hlabel Hshown Hline Hcut.
  unfold one_line in Hline. rewrite !all_chars_app in Hline.
  apply andb_prop in Hline as [Hl1 [Hl2 Hl3]%andb_prop].
  set (line := label +:+ ": " +:+ shown +:+ cut).
  assert (Hsplit : split nl (page_content doc) = line :: split nl rest).
  { rewrite Hcontent.
    replace (label +:+ ": " +:+ shown +:+ cut +:+ nl +:+ rest)
      with (line +:+ nl +:+ rest)
      by (unfold line; by rewrite !str_app_assoc).
    apply split_first_line. unfold one_line, line.
    rewrite !all_chars_app, Hl1, Hl2, Hl3. reflexivity. }
  assert (Hhas : contains ": " line = true).
  { unfold line. apply contains_app. }
  assert (Hfield : split ": " line !! 1 = Some shown).
  { unfold split, line.
    rewrite split_go_sep_free by done.
    destruct Hcut as [-> | [more ->]].
    - rewrite str_app_nil_r, split_go_sep_none by done.
      cbn. by rewrite rev_rev_app.
    - rewrite split_go_sep_free by done. cbn. by rewrite rev_rev_app. }
  unfold info_line. rewrite Hsplit. cbn [take].
  fold (shown_fields (line :: take n (split nl rest))).
  unfold shown_fields. cbn [List.filter]. rewrite Hhas.
  rewrite fmap_cons, Hfield. reflexivity.
Qed.

Lemma info_line_cuts_value_witness :
  info_line 4
    (Sample.chunk "Star Wars: Episode IV"
       ("Title" +:+ ": " +:+ "Star Wars" +:+ ": Episode IV" +:+ nl +:+
        "Year: 1977"))
  = "Star Wars | 1977".
Proof.
  apply (info_line_cuts_value _ 3 "Title" "Star Wars" ": Episode IV"
           "Year: 1977"); try reflexivity.
  right. by exists "Episode IV".
Defined.
